(** * smallsh: a shallow embedding of [main.c] and its specification

  The development follows the layout of the C source:
  - [CStr]: the C library string routines the shell relies on
    ([strlen], [strstr], [strtok], [memcpy], [strcpy], [snprintf "%d"]);
  - [WaitStatus]: the wait-status macros of [<sys/wait.h>];
  - [Smallsh]: the globals, the two signal handlers, the parser, the
    [$$] expansion, the built-ins and the process launcher;
  - the theorems about them, claim by claim. *)

From Stdlib Require Import ZArith List String Ascii Bool Arith Lia DecimalString.
Import ListNotations.

Local Open Scope string_scope.
Local Open Scope Z_scope.

(* ================================================================== *)
(** ** C strings and the C library routines used by [main.c] *)
(* ================================================================== *)

Module CStr.

(** The terminating byte of a C string. *)
Definition NUL : ascii := Ascii.zero.

(** A C string never holds the terminator inside its text. *)
Fixpoint no_nul (s : string) : bool :=
  match s with
  | EmptyString => true
  | String c r => negb (Ascii.eqb c NUL) && no_nul r
  end.

Definition strlen (s : string) : nat := String.length s.

(** [p + n] on a [char *]: the string that starts [n] characters later. *)
Fixpoint advance (n : nat) (p : string) : string :=
  match n, p with
  | O, _ => p
  | S _, EmptyString => EmptyString
  | S n', String _ r => advance n' r
  end.

(** The first [n] characters of [s]. *)
Fixpoint take (n : nat) (s : string) : string :=
  match n, s with
  | O, _ => EmptyString
  | S _, EmptyString => EmptyString
  | S n', String c r => String c (take n' r)
  end.

(** [strstr hay needle]: the suffix of [hay] that starts at the first
    occurrence of [needle], or [None] for the null pointer. *)
Fixpoint strstr (hay needle : string) : option string :=
  if String.prefix needle hay then Some hay
  else match hay with
       | EmptyString => None
       | String _ r => strstr r needle
       end.

(** [strcmp a b == 0]. *)
Definition streq (a b : string) : bool := String.eqb a b.

(** [printf "%d"] of an [int]. *)
Definition decimal (z : Z) : string := NilZero.string_of_int (Z.to_int z).

(** [snprintf(buf, size, "%d", z)]: at most [size - 1] characters are
    stored, followed by the terminator. *)
Definition snprintf_d (size : nat) (z : Z) : string :=
  take (size - 1) (decimal z).

(** *** [strtok] with the single delimiter [" "]

    The hidden state of [strtok] is the position where the next search
    starts; it is modelled by the text that is left there. *)

Definition is_delim (c : ascii) : bool := Ascii.eqb c " "%char.

(** [s + strspn(s, " ")]. *)
Fixpoint skip_delims (s : string) : string :=
  match s with
  | EmptyString => EmptyString
  | String c r => if is_delim c then skip_delims r else s
  end.

(** Cuts the token at the start of [s]: the token, and the text after the
    delimiter that ended it (empty when the token ran to the end). *)
Fixpoint cut_token (s : string) : string * string :=
  match s with
  | EmptyString => (EmptyString, EmptyString)
  | String c r =>
      if is_delim c then (EmptyString, r)
      else let '(t, rest) := cut_token r in (String c t, rest)
  end.

(** [strtok(NULL, " ")] from the saved position (and [strtok(s, " ")]
    when [saved] is [s]): the token or the null pointer, and the new
    saved position. *)
Definition strtok (saved : string) : option string * string :=
  match skip_delims saved with
  | EmptyString => (None, EmptyString)
  | s => let '(t, rest) := cut_token s in (Some t, rest)
  end.

(** *** Heap buffers

    A [malloc]ed block: every cell starts indeterminate ([None]). *)
Definition buffer := list (option ascii).

Definition malloc (n : nat) : buffer := repeat None n.

(** [a[i] = x] on an array of known size; [None] when [i] is outside. *)
Fixpoint poke {A : Type} (a : list A) (i : nat) (x : A) : option (list A) :=
  match a, i with
  | [], _ => None
  | _ :: r, O => Some (x :: r)
  | y :: r, S i' =>
      match poke r i' x with
      | Some r' => Some (y :: r')
      | None => None
      end
  end.

(** Stores one character; [None] when the offset is outside the block. *)
Definition store (b : buffer) (off : nat) (c : ascii) : option buffer :=
  poke b off (Some c).

(** Stores the characters of [src] from [off] on. *)
Fixpoint store_all (b : buffer) (off : nat) (src : string) : option buffer :=
  match src with
  | EmptyString => Some b
  | String c r =>
      match store b off c with
      | Some b' => store_all b' (S off) r
      | None => None
      end
  end.

(** [memcpy(b + off, src, n)], [src] holding at least [n] characters. *)
Definition memcpy (b : buffer) (off : nat) (src : string) (n : nat)
  : option buffer :=
  store_all b off (take n src).

(** [strcpy(b + off, src)]: the text and its terminator. *)
Definition strcpy (b : buffer) (off : nat) (src : string) : option buffer :=
  store_all b off (src ++ String NUL EmptyString).

(** The C string a block holds from its start: the characters before the
    first terminator; [None] when an indeterminate cell or the end of the
    block comes first. *)
Fixpoint c_str (b : buffer) : option string :=
  match b with
  | [] => None
  | None :: _ => None
  | Some c :: r =>
      if Ascii.eqb c NUL then Some EmptyString
      else match c_str r with
           | Some s => Some (String c s)
           | None => None
           end
  end.

(** The cells a text occupies once stored. *)
Definition cells (s : string) : buffer := map Some (list_ascii_of_string s).

(** No character of [s] is a dollar sign. *)
Fixpoint dollar_free (s : string) : bool :=
  match s with
  | EmptyString => true
  | String c r => negb (Ascii.eqb c "$") && dollar_free r
  end.

End CStr.

(* ================================================================== *)
(** ** The wait-status macros of [<sys/wait.h>]

  [main.c] only uses the macros; their definitions are the platform's
  (glibc, [bits/waitstatus.h]), written out on [int] values. *)
(* ================================================================== *)

Module WaitStatus.

(** [(signed char) z]. *)
Definition signed_char (z : Z) : Z :=
  let b := Z.land z 255 in if b <? 128 then b else b - 256.

(** [((status) & 0x7f)]. *)
Definition WTERMSIG (status : Z) : Z := Z.land status 127.

(** [(((status) & 0xff00) >> 8)]. *)
Definition WEXITSTATUS (status : Z) : Z :=
  Z.shiftr (Z.land status 65280) 8.

(** [(((signed char) (((status) & 0x7f) + 1) >> 1) > 0)]. *)
Definition WIFSIGNALED (status : Z) : bool :=
  0 <? Z.shiftr (signed_char (Z.land status 127 + 1)) 1.

(** [((ret) << 8 | (sig))]: the status the kernel hands out for a child
    that called [exit(ret)] ([sig] = 0) or was killed by [sig]. *)
Definition W_EXITCODE (ret sig : Z) : Z := Z.lor (Z.shiftl ret 8) sig.

(** How a child ended, as [waitpid] without [WUNTRACED] can report it. *)
Inductive outcome : Type :=
| Exited (code : Z)
| Killed (sig : Z) (core : bool).

Definition encode (o : outcome) : Z :=
  match o with
  | Exited code => W_EXITCODE (Z.land code 255) 0
  | Killed sig core => Z.lor sig (if core then 128 else 0)
  end.

Definition WNOHANG : Z := 1.

(** The outcomes a child can have: an exit code is a byte, a terminating
    signal a number from 1 to 126. *)
Definition valid_outcome (o : outcome) : bool :=
  match o with
  | Exited code => (0 <=? code) && (code <=? 255)
  | Killed sig _ => (1 <=? sig) && (sig <=? 126)
  end.

(** The macros read back an exit code, and a terminating signal. *)
Definition exited_ok (n : nat) : bool :=
  let k := Z.of_nat n in
  negb (WIFSIGNALED (encode (Exited k)))
  && (WEXITSTATUS (encode (Exited k)) =? k).

Definition killed_ok (n : nat) : bool :=
  let s := Z.of_nat n in
  WIFSIGNALED (encode (Killed s false)) && WIFSIGNALED (encode (Killed s true))
  && (WTERMSIG (encode (Killed s false)) =? s)
  && (WTERMSIG (encode (Killed s true)) =? s).

End WaitStatus.

(* ================================================================== *)
(** ** The shell *)
(* ================================================================== *)

Module Smallsh.
Import CStr WaitStatus.

Definition MAX_INPUT_SIZE : nat := 2048.
Definition MAX_ARG_SIZE : nat := 512.

Definition SIGINT : Z := 2.
Definition SIGTERM : Z := 15.
Definition SIGCHLD : Z := 17.
Definition SIGTSTP : Z := 20.
Definition STDOUT_FILENO : Z := 1.

(** *** Process state *)

Inductive handler : Type := Handle_sigchld | Handle_sigtstp.

Inductive disposition : Type :=
| SIG_DFL
| SIG_IGN
| Handler (h : handler).

(** The three globals of [main.c], the process identifier [getpid]
    returns, and the dispositions [main] installs. *)
Record process : Type := {
  lastExitStatus : Z;
  lastTerminalSignal : Z;
  foreground_only_mode : Z;
  self_pid : Z;
  on_SIGINT : disposition;
  on_SIGTSTP : disposition;
  on_SIGCHLD : disposition
}.

(** The state in which [main] enters its loop. *)
Definition initial (pid : Z) : process :=
  {| lastExitStatus := 0;
     lastTerminalSignal := 0;
     foreground_only_mode := 0;
     self_pid := pid;
     on_SIGINT := SIG_IGN;
     on_SIGTSTP := Handler Handle_sigtstp;
     on_SIGCHLD := Handler Handle_sigchld |}.

Definition set_status (p : process) (exit_status term_sig : Z) : process :=
  {| lastExitStatus := exit_status;
     lastTerminalSignal := term_sig;
     foreground_only_mode := foreground_only_mode p;
     self_pid := self_pid p;
     on_SIGINT := on_SIGINT p;
     on_SIGTSTP := on_SIGTSTP p;
     on_SIGCHLD := on_SIGCHLD p |}.

Definition set_mode (p : process) (m : Z) : process :=
  {| lastExitStatus := lastExitStatus p;
     lastTerminalSignal := lastTerminalSignal p;
     foreground_only_mode := m;
     self_pid := self_pid p;
     on_SIGINT := on_SIGINT p;
     on_SIGTSTP := on_SIGTSTP p;
     on_SIGCHLD := on_SIGCHLD p |}.

(** [signal(signo, d)]; only the signals [main.c] names are tracked. *)
Definition set_disposition (p : process) (signo : Z) (d : disposition)
  : process :=
  {| lastExitStatus := lastExitStatus p;
     lastTerminalSignal := lastTerminalSignal p;
     foreground_only_mode := foreground_only_mode p;
     self_pid := self_pid p;
     on_SIGINT := if signo =? SIGINT then d else on_SIGINT p;
     on_SIGTSTP := if signo =? SIGTSTP then d else on_SIGTSTP p;
     on_SIGCHLD := if signo =? SIGCHLD then d else on_SIGCHLD p |}.

(** *** What the process does to the outside, in order *)

Inductive open_mode : Type :=
| O_RDONLY
| O_WRONLY_CREAT_TRUNC (perm : Z).

Inductive event : Type :=
| Printf (text : string)
| Fflush
| Write (fd : Z) (text : string)
| Perror (prefix : string)
| Fork (ret : Z)
| Signal (signo : Z) (d : disposition)
| Open (path : string) (mode : open_mode) (ret : Z)
| Dup2 (fd newfd : Z)
| Close (fd : Z)
| Execvp (file : string) (argv : list string)
| Waitpid (pid options ret : Z) (status : option Z)
| Chdir (path : option string) (ret : Z)
| Kill (pid signo : Z).

(** *** How a call ends *)

Inductive fault : Type :=
| NullPointer          (* a null pointer handed to a string routine *)
| OutOfBounds          (* a store outside the object *)
| IndeterminateRead    (* a read of memory never written *)
| LoopBound.           (* the bound of a modelled loop; never reached *)

Inductive result (A : Type) : Type :=
| Returns (a : A)                           (* the call returns *)
| Exits (code : Z)                          (* [exit(code)] *)
| Replaced (file : string) (argv : list string)  (* [execvp] succeeded *)
| Signalled (signo : Z)                     (* ended by a signal *)
| Undefined (f : fault).                    (* undefined behaviour *)

Arguments Returns {A} a.
Arguments Exits {A} code.
Arguments Replaced {A} file argv.
Arguments Signalled {A} signo.
Arguments Undefined {A} f.

(** Sequencing of calls that touch no process state. *)
Definition and_then {A B} (r : result A) (k : A -> result B) : result B :=
  match r with
  | Returns a => k a
  | Exits c => Exits c
  | Replaced f a => Replaced f a
  | Signalled s => Signalled s
  | Undefined u => Undefined u
  end.

(** A command of the shell: from the process state to how it ends, the
    new state, and the events it produced. *)
Definition M (A : Type) : Type := process -> result A * process * list event.

Definition ret {A} (a : A) : M A := fun p => (Returns a, p, []).

Definition bind {A B} (m : M A) (f : A -> M B) : M B :=
  fun p =>
    match m p with
    | (Returns a, p1, t1) =>
        let '(r, p2, t2) := f a p1 in (r, p2, (t1 ++ t2)%list)
    | (Exits c, p1, t1) => (Exits c, p1, t1)
    | (Replaced f' a, p1, t1) => (Replaced f' a, p1, t1)
    | (Signalled s, p1, t1) => (Signalled s, p1, t1)
    | (Undefined u, p1, t1) => (Undefined u, p1, t1)
    end.

Definition emit (e : event) : M unit := fun p => (Returns tt, p, [e]).
Definition get : M process := fun p => (Returns p, p, []).
Definition put (p' : process) : M unit := fun _ => (Returns tt, p', []).
Definition exit {A} (code : Z) : M A := fun p => (Exits code, p, []).
Definition undefined {A} (f : fault) : M A := fun p => (Undefined f, p, []).
Definition signalled {A} (signo : Z) : M A :=
  fun p => (Signalled signo, p, []).

Declare Scope sh_scope.
Delimit Scope sh_scope with sh.
Notation "x <- m ;; k" := (bind m (fun x => k))
  (at level 61, m at next level, right associativity) : sh_scope.
Notation "m ;; k" := (bind m (fun _ => k))
  (at level 61, right associativity) : sh_scope.
Local Open Scope sh_scope.

Definition nl : string := String (ascii_of_nat 10) EmptyString.

Definition printf (text : string) : M unit := emit (Printf text).
Definition fflush : M unit := emit Fflush.
Definition perror (prefix : string) : M unit := emit (Perror prefix).

Definition signal (signo : Z) (d : disposition) : M unit :=
  fun p => (Returns tt, set_disposition p signo d, [Signal signo d]).

(** *** [handle_sigtstp] *)

Definition exiting_msg : string :=
  (nl ++ "Exiting foreground-only mode" ++ nl)%string.
Definition entering_msg : string :=
  (nl ++ "Entering foreground-only mode (& is now ignored)" ++ nl)%string.

(** [write(fd, text, n)] of a string literal: the first [n] bytes of the
    literal, whose last byte is its terminator. *)
Definition write (fd : Z) (text : string) (n : nat) : M unit :=
  emit (Write fd (take n (text ++ String NUL EmptyString)%string)).

Definition handle_sigtstp : M unit :=
  p <- get ;;
  if negb (foreground_only_mode p =? 0) then
    write STDOUT_FILENO exiting_msg 30 ;;
    put (set_mode p 0)
  else
    write STDOUT_FILENO entering_msg 51 ;;
    put (set_mode p 1).

(** *** [handle_sigchld]

    [pending] lists, in the order [waitpid(-1, &status, WNOHANG)] hands
    them out, the children whose termination is pending while the handler
    runs, each with its status; [more] tells whether other children are
    left once these are reaped ([waitpid] then returns 0, else -1). *)

Definition report (child_pid status : Z) : string :=
  if WIFSIGNALED status then
    ("Background process with PID " ++ decimal child_pid
       ++ " terminated by signal " ++ decimal (WTERMSIG status) ++ nl)%string
  else
    ("Background process with PID " ++ decimal child_pid
       ++ " exited with status " ++ decimal (WEXITSTATUS status) ++ nl)%string.

(** The loop [while ((child_pid = waitpid(-1, &status, WNOHANG)) > 0)]:
    the test holds for each pending child and fails on the last reply. *)
Fixpoint sigchld_loop (pending : list (positive * Z)) (more : bool) : M unit :=
  match pending with
  | [] => emit (Waitpid (-1) WNOHANG (if more then 0 else -1) None)
  | (child, status) :: rest =>
      let child_pid := Z.pos child in
      emit (Waitpid (-1) WNOHANG child_pid (Some status)) ;;
      printf (report child_pid status) ;;
      sigchld_loop rest more
  end.

Definition handle_sigchld (pending : list (positive * Z)) (more : bool)
  : M unit :=
  sigchld_loop pending more ;;
  fflush.

(** *** [expandShellID] *)

(** Arithmetic on [size_t]. *)
Definition size_t (z : Z) : Z := z mod 2 ^ 64.

Definition marker : string := "$$".

(** The counting loop: [while (ptr) { dollarCount++; ptr = strstr(ptr + 2, "$$"); }]. *)
Fixpoint count_loop (fuel : nat) (ptr : option string) (dollarCount : Z) : Z :=
  match ptr, fuel with
  | None, _ => dollarCount
  | Some _, O => dollarCount
  | Some p, S fuel' =>
      count_loop fuel' (strstr (advance 2 p) marker) (dollarCount + 1)
  end.

(** The copying loop.  [ptr] and [token] are positions in the same
    string, so [ptr - token] is the difference of what is left. *)
Fixpoint copy_loop (fuel : nat) (SS_PID : string) (ptr token : string)
    (expandedArg : buffer) (writePtr : nat) : result buffer :=
  match strstr ptr marker with
  | None => Returns expandedArg
  | Some ptr =>
      match fuel with
      | O => Undefined LoopBound
      | S fuel' =>
          let segmentLength := (strlen token - strlen ptr)%nat in
          match memcpy expandedArg writePtr token segmentLength with
          | None => Undefined OutOfBounds
          | Some b1 =>
              let writePtr := (writePtr + segmentLength)%nat in
              match strcpy b1 writePtr SS_PID with
              | None => Undefined OutOfBounds
              | Some b2 =>
                  let writePtr := (writePtr + strlen SS_PID)%nat in
                  let ptr := advance 2 ptr in
                  copy_loop fuel' SS_PID ptr ptr b2 writePtr
              end
          end
      end
  end.

(** [malloc] is taken to succeed.  The result is the C string the
    returned block holds; a block without a terminated string is reported
    where it is returned. *)
Definition expandShellID (pid : Z) (token : string) : result string :=
  let SS_PID := snprintf_d 7 pid in
  let dollarCount :=
    count_loop (S (strlen token)) (strstr token marker) 0 in
  let newSize :=
    size_t (size_t (Z.of_nat (strlen token)
                    + size_t (size_t (Z.of_nat (strlen SS_PID) - 2)
                              * dollarCount))
            + 1) in
  let expandedArg := malloc (Z.to_nat newSize) in
  and_then (copy_loop (strlen token) SS_PID token token expandedArg 0)
    (fun b =>
       match c_str b with
       | Some s => Returns s
       | None => Undefined IndeterminateRead
       end).

(** *** [parseInput] *)

(** An element of [char *args[MAX_ARG_SIZE]]. *)
Inductive cell : Type :=
| Indeterminate            (* never assigned *)
| Null                     (* [NULL] *)
| Ptr (s : string).        (* a string *)

(** The objects [parseInput] writes through its pointer parameters, and
    its local [i]. *)
Record parsed : Type := {
  args : list cell;
  i : nat;
  inputFile : option string;
  outputFile : option string;
  background : Z
}.

Definition set_inputFile (st : parsed) (f : option string) : parsed :=
  {| args := args st; i := i st; inputFile := f;
     outputFile := outputFile st; background := background st |}.

Definition set_outputFile (st : parsed) (f : option string) : parsed :=
  {| args := args st; i := i st; inputFile := inputFile st;
     outputFile := f; background := background st |}.

Definition set_background (st : parsed) (b : Z) : parsed :=
  {| args := args st; i := i st; inputFile := inputFile st;
     outputFile := outputFile st; background := b |}.

(** [args[i++] = s]. *)
Definition push_arg (st : parsed) (s : string) : result parsed :=
  match poke (args st) (i st) (Ptr s) with
  | Some a =>
      Returns {| args := a; i := S (i st); inputFile := inputFile st;
                 outputFile := outputFile st; background := background st |}
  | None => Undefined OutOfBounds
  end.

(** [args[i] = NULL]. *)
Definition end_args (st : parsed) : result parsed :=
  match poke (args st) (i st) Null with
  | Some a =>
      Returns {| args := a; i := i st; inputFile := inputFile st;
                 outputFile := outputFile st; background := background st |}
  | None => Undefined OutOfBounds
  end.

(** The body of the [while (token != NULL)] loop, up to but not including
    the final [token = strtok(NULL, " ")]: the new saved position of
    [strtok] and the new state. *)
Definition parse_token (pid mode : Z) (token : string) (saved : string)
    (st : parsed) : result (string * parsed) :=
  if streq token "<" then
    let '(f, saved) := strtok saved in
    Returns (saved, set_inputFile st f)
  else if streq token ">" then
    let '(f, saved) := strtok saved in
    Returns (saved, set_outputFile st f)
  else if streq token "&" then
    if mode =? 0 then Returns (saved, set_background st 1)
    else Returns (saved, st)
  else
    match strstr token marker with
    | Some _ =>
        and_then (expandShellID pid token) (fun e =>
        and_then (push_arg st e) (fun st' =>
        Returns (saved, st')))
    | None =>
        and_then (push_arg st token) (fun st' =>
        Returns (saved, st'))
    end.

Fixpoint parse_loop (fuel : nat) (pid mode : Z) (token : option string)
    (saved : string) (st : parsed) : result parsed :=
  match token with
  | None => Returns st
  | Some tok =>
      match fuel with
      | O => Undefined LoopBound
      | S fuel' =>
          and_then (parse_token pid mode tok saved st)
            (fun '(saved, st) =>
               let '(token, saved) := strtok saved in
               parse_loop fuel' pid mode token saved st)
      end
  end.

(** [parseInput(input, args, &inputFile, &outputFile, &background)];
    [st] holds the caller's objects as they are on entry, [pid] is what
    [getpid] returns and [mode] the value of [foreground_only_mode]. *)
Definition parseInput (pid mode : Z) (input : string) (st : parsed)
  : result parsed :=
  let st := {| args := args st; i := O; inputFile := inputFile st;
               outputFile := outputFile st; background := background st |} in
  let '(token, saved) := strtok input in
  and_then (parse_loop (S (strlen input)) pid mode token saved st) end_args.

(** *** The built-ins *)

(** What the operating system answers to the calls one command makes. *)
Record os_replies : Type := {
  fork_ret : Z;            (* [fork()] in this process *)
  open_in_ret : Z;         (* [open(inputFile, O_RDONLY)] *)
  open_out_ret : Z;        (* [open(outputFile, ...)] *)
  execvp_ok : bool;        (* whether [execvp] replaces the image *)
  wait_ret : Z;            (* [waitpid(spawnPid, &status, 0)] *)
  wait_status : Z;         (* the value of [status] after that call *)
  home : option string;    (* [getenv("HOME")] *)
  chdir_ret : Z            (* [chdir(...)] *)
}.

(** [kill(pid, signo)].  With [pid] 0 the signal goes to every process of
    the group of the caller, the caller included, and is delivered to the
    caller before [kill] returns.  [main] leaves SIGTERM at its default
    action, which ends the process. *)
Definition kill (pid signo : Z) : M unit :=
  emit (Kill pid signo) ;;
  if (pid =? 0) && (signo =? SIGTERM)
  then signalled signo
  else ret tt.

(** [kill(0, SIGTERM); exit(0);] *)
Definition handleExit : M unit :=
  kill 0 SIGTERM ;;
  exit 0.

Definition handleCd (os : os_replies) (args : list cell) : M unit :=
  match nth_error args 1 with
  | Some Null =>
      emit (Chdir (home os) (chdir_ret os))
  | Some (Ptr path) =>
      emit (Chdir (Some path) (chdir_ret os)) ;;
      if negb (chdir_ret os =? 0) then perror "cd failed" else ret tt
  | Some Indeterminate => undefined IndeterminateRead
  | None => undefined OutOfBounds
  end.

Definition status_text (p : process) : string :=
  if negb (lastExitStatus p =? -1) then
    ("exit value: " ++ decimal (lastExitStatus p) ++ nl)%string
  else
    ("terminated by signal " ++ decimal (lastTerminalSignal p) ++ nl)%string.

Definition handleStatus : M unit :=
  p <- get ;;
  printf (status_text p) ;;
  fflush.

(** *** [executeCommand] *)

(** The argument vector [execvp] reads: the strings up to the first
    [NULL]. *)
Fixpoint read_argv (a : list cell) : result (list string) :=
  match a with
  | [] => Undefined OutOfBounds
  | Indeterminate :: _ => Undefined IndeterminateRead
  | Null :: _ => Returns []
  | Ptr s :: r => and_then (read_argv r) (fun l => Returns (s :: l))
  end.

Definition lift {A} (r : result A) : M A := fun p => (r, p, []).

Definition redirect_input (os : os_replies) (inputFile : option string)
  : M unit :=
  match inputFile with
  | Some path =>
      let fd := open_in_ret os in
      emit (Open path O_RDONLY fd) ;;
      (if fd =? -1 then perror "Input redirection failed" ;; exit 1
       else ret tt) ;;
      emit (Dup2 fd 0) ;;
      emit (Close fd)
  | None => ret tt
  end.

Definition redirect_output (os : os_replies) (outputFile : option string)
  : M unit :=
  match outputFile with
  | Some path =>
      let fd := open_out_ret os in
      emit (Open path (O_WRONLY_CREAT_TRUNC 420) fd) ;;
      (if fd =? -1 then perror "Output redirection failed" ;; exit 1
       else ret tt) ;;
      emit (Dup2 fd 1) ;;
      emit (Close fd)
  | None => ret tt
  end.

(** [execvp(args[0], args)] and what follows it. *)
Definition execvp (os : os_replies) (args : list cell) : M unit :=
  match nth_error args 0 with
  | Some (Ptr file) =>
      argv <- lift (read_argv args) ;;
      emit (Execvp file argv) ;;
      if execvp_ok os then (fun p => (Replaced file argv, p, []))
      else perror "Command execution failed" ;; exit 1
  | Some Null => undefined NullPointer
  | Some Indeterminate => undefined IndeterminateRead
  | None => undefined OutOfBounds
  end.

(** The branch taken where [fork] returned 0. *)
Definition child (os : os_replies) (args : list cell)
    (inputFile outputFile : option string) : M unit :=
  signal SIGTSTP SIG_IGN ;;
  signal SIGINT SIG_DFL ;;
  redirect_input os inputFile ;;
  redirect_output os outputFile ;;
  execvp os args.

(** The local [int status] after [waitpid(spawnPid, &status, 0)]: the
    call stores into it when it returns a child, and leaves it as it was,
    never written, when it fails and returns -1.  It fails when the child is
    no longer there to wait for, as happens once [handle_sigchld], run on
    the SIGCHLD of this very child before the call, reaped it with its
    [waitpid(-1, ...)]. *)
Definition written_status (os : os_replies) : option Z :=
  if wait_ret os =? -1 then None else Some (wait_status os).

(** The last branch: wait for the child and record how it ended.  The
    value [waitpid] returns is not looked at; [status] is read whether or
    not the call wrote it. *)
Definition foreground_wait (os : os_replies) (spawnPid : Z) : M unit :=
  let status := written_status os in
  emit (Waitpid spawnPid 0 (wait_ret os) status) ;;
  match status with
  | None => undefined IndeterminateRead
  | Some status =>
      p <- get ;;
      if WIFSIGNALED status then
        put (set_status p (lastExitStatus p) (WTERMSIG status)) ;;
        p <- get ;;
        put (set_status p (-1) (lastTerminalSignal p))
      else
        put (set_status p (WEXITSTATUS status) (lastTerminalSignal p))
  end.

Definition executeCommand (os : os_replies) (args : list cell)
    (inputFile outputFile : option string) (background : Z) : M unit :=
  let spawnPid := fork_ret os in
  emit (Fork spawnPid) ;;
  p <- get ;;
  if spawnPid =? -1 then
    perror "fork failed" ;;
    exit 1
  else if spawnPid =? 0 then
    child os args inputFile outputFile
  else if negb (background =? 0) && (foreground_only_mode p =? 0) then
    printf ("Background process ID: " ++ decimal spawnPid ++ nl)%string ;;
    fflush
  else
    foreground_wait os spawnPid.

(** *** [handleCommand] *)

(** The locals of [handleCommand] before [parseInput] is called. *)
Definition locals : parsed :=
  {| args := repeat Indeterminate MAX_ARG_SIZE;
     i := O;
     inputFile := None;
     outputFile := None;
     background := 0 |}.

(** The dispatch on [args[0]] after parsing. *)
Definition dispatch (os : os_replies) (st : parsed) : M unit :=
  match nth_error (args st) 0 with
  | Some (Ptr verb) =>
      if streq verb "exit" then handleExit
      else if streq verb "cd" then handleCd os (args st)
      else if streq verb "status" then handleStatus
      else executeCommand os (args st) (inputFile st) (outputFile st)
             (background st)
  | Some Null => undefined NullPointer
  | Some Indeterminate => undefined IndeterminateRead
  | None => undefined OutOfBounds
  end.

Definition handleCommand (os : os_replies) (input : string) : M unit :=
  p <- get ;;
  st <- lift (parseInput (self_pid p) (foreground_only_mode p) input locals) ;;
  dispatch os st.

(** *** One turn of the loop of [main] *)

(** [input[strcspn(input, "\n")] = 0]: of the bytes in [input], the
    string that is left is what stands before the first newline or, if
    one comes earlier, before the first null byte. *)
Fixpoint chop_newline (s : string) : string :=
  match s with
  | EmptyString => EmptyString
  | String c r =>
      if Ascii.eqb c NUL || Ascii.eqb c (ascii_of_nat 10) then EmptyString
      else String c (chop_newline r)
  end.

(** [fgets_ret] is the bytes [fgets(input, MAX_INPUT_SIZE, stdin)] stored
    before its terminator -- null bytes read from [stdin] among them -- or
    [None] when it returned [NULL]. *)
Definition main_turn (os : os_replies) (fgets_ret : option string) : M unit :=
  printf ": " ;;
  fflush ;;
  match fgets_ret with
  | None => ret tt
  | Some raw =>
      match chop_newline raw with
      | EmptyString => ret tt
      | String c _ as input =>
          if Ascii.eqb c "#"%char then ret tt
          else handleCommand os input
      end
  end.

(** *** The shell over time

    What happens to the process after [main] set it up: a turn of the
    loop, or the delivery of one of the two handled signals between two
    turns.  A SIGCHLD handled inside a turn, between [fork] and [waitpid],
    shows in the replies of that turn: [waitpid] finds the child gone and
    returns -1 (see [written_status]). *)
Inductive stimulus : Type :=
| Turn (os : os_replies) (fgets_ret : option string)
| Got_SIGTSTP
| Got_SIGCHLD (pending : list (positive * Z)) (more : bool).

Definition react (s : stimulus) : M unit :=
  match s with
  | Turn os line => main_turn os line
  | Got_SIGTSTP => handle_sigtstp
  | Got_SIGCHLD pending more => handle_sigchld pending more
  end.

Fixpoint run (l : list stimulus) : M unit :=
  match l with
  | [] => ret tt
  | s :: r => react s ;; run r
  end.

(** *** Notions the statements below are written with *)

(** Whether [s] holds the marker. *)
Definition has_marker (s : string) : bool :=
  match strstr s marker with
  | Some _ => true
  | None => false
  end.

(** A token read from left to right: [chunks segs ++ tail] is the token
    whose marker occurrences (first one first, none overlapping) each end
    one element of [segs], [tail] being what follows the last one. *)
Fixpoint chunks (segs : list string) : string :=
  match segs with
  | [] => EmptyString
  | seg :: r => (seg ++ marker ++ chunks r)%string
  end.

(** [seg] can stand before a marker occurrence: the marker that follows
    it is the first one, so none starts inside [seg ++ "$"]. *)
Definition segment_ok (seg : string) : bool :=
  negb (has_marker (seg ++ "$")%string).

(** Every occurrence replaced by [pidstr], up to the last one. *)
Fixpoint expansion (pidstr : string) (segs : list string) : string :=
  match segs with
  | [] => EmptyString
  | seg :: r => (seg ++ pidstr ++ expansion pidstr r)%string
  end.

(** The words of a line, as successive calls of [strtok] hand them out. *)
Fixpoint tokens_within (fuel : nat) (saved : string) : list string :=
  match fuel with
  | O => []
  | S fuel' =>
      match strtok saved with
      | (Some t, rest) => t :: tokens_within fuel' rest
      | (None, _) => []
      end
  end.

Definition tokens (line : string) : list string :=
  tokens_within (S (strlen line)) line.

Definition is_redirect (t : string) : bool := streq t "<" || streq t ">".

(** A word: at least one character, none of them a space. *)
Fixpoint space_free (w : string) : bool :=
  match w with
  | EmptyString => true
  | String c r => negb (is_delim c) && space_free r
  end.

Definition is_word (w : string) : bool :=
  negb (String.eqb w EmptyString) && space_free w.

(** The loop of [parseInput] read over the list of the words of the line
    instead of the [strtok] state; [parse_loop_scan] below shows that
    this is what the loop computes. *)
Fixpoint scan (pid mode : Z) (toks : list string) (st : parsed)
  : result parsed :=
  match toks with
  | [] => Returns st
  | tok :: rest =>
      if streq tok "<" then
        match rest with
        | [] => Returns (set_inputFile st None)
        | f :: rest' => scan pid mode rest' (set_inputFile st (Some f))
        end
      else if streq tok ">" then
        match rest with
        | [] => Returns (set_outputFile st None)
        | f :: rest' => scan pid mode rest' (set_outputFile st (Some f))
        end
      else if streq tok "&" then
        scan pid mode rest (if mode =? 0 then set_background st 1 else st)
      else
        match strstr tok marker with
        | Some _ =>
            and_then (expandShellID pid tok) (fun e =>
            and_then (push_arg st e) (scan pid mode rest))
        | None => and_then (push_arg st tok) (scan pid mode rest)
        end
  end.

(** Whether the last word of [toks] is the operator [op] with no word
    left for it, the words being read as the loop reads them: an operator
    takes the word after it as its path, whatever that word is. *)
Fixpoint dangles (op : string) (toks : list string) : bool :=
  match toks with
  | [] => false
  | tok :: rest =>
      if is_redirect tok then
        match rest with
        | [] => streq tok op
        | _ :: rest' => dangles op rest'
        end
      else dangles op rest
  end.


Definition is_builtin (verb : string) : bool :=
  streq verb "exit" || streq verb "cd" || streq verb "status".

(** The calls that block until a given child ends. *)
Definition is_foreground_wait (e : event) : bool :=
  match e with
  | Waitpid _ options _ _ => options =? 0
  | _ => false
  end.

(** The status the last blocking wait of a trace delivered. *)
Fixpoint last_foreground (t : list event) (seen : option Z) : option Z :=
  match t with
  | [] => seen
  | Waitpid _ options _ (Some status) :: r =>
      last_foreground r (if options =? 0 then Some status else seen)
  | _ :: r => last_foreground r seen
  end.

(** The calls that set a signal disposition. *)
Definition is_signal (e : event) : bool :=
  match e with
  | Signal _ _ => true
  | _ => false
  end.

(** The [open] of an input redirection, and of an output redirection. *)
Definition is_input_open (e : event) : bool :=
  match e with
  | Open _ O_RDONLY _ => true
  | _ => false
  end.

Definition is_output_open (e : event) : bool :=
  match e with
  | Open _ (O_WRONLY_CREAT_TRUNC _) _ => true
  | _ => false
  end.

(** The events that are neither an [open] nor a [printf]. *)
Definition plain (e : event) : bool :=
  match e with
  | Open _ _ _ | Printf _ => false
  | _ => true
  end.

(** [m] carries the relation [R] between the state before, the events
    and the state after. *)
Definition carries {A : Type}
    (R : process -> list event -> process -> Prop) (m : M A) : Prop :=
  forall p, R p (snd (m p)) (snd (fst (m p))).

(** Every event of [m] is of the kind [P]. *)
Definition emits {A : Type} (P : event -> bool) (m : M A) : Prop :=
  forall p, forallb P (snd (m p)) = true.

(** What the specification asks of the substitution: every occurrence
    replaced, everything else kept, the tail included. *)
Definition claimed_expansion (pidstr : string) (segs : list string)
    (tail : string) : string :=
  (expansion pidstr segs ++ tail)%string.

(** What [status] is to print after a foreground child ended as [o]. *)
Definition status_line (o : outcome) : string :=
  match o with
  | Exited code => ("exit value: " ++ decimal code ++ nl)%string
  | Killed sig _ => ("terminated by signal " ++ decimal sig ++ nl)%string
  end.

(** What the reaper is to print for the child [pid] that ended as [o]. *)
Definition reaped_line (pid : Z) (o : outcome) : string :=
  match o with
  | Exited code =>
      ("Background process with PID " ++ decimal pid
         ++ " exited with status " ++ decimal code ++ nl)%string
  | Killed sig _ =>
      ("Background process with PID " ++ decimal pid
         ++ " terminated by signal " ++ decimal sig ++ nl)%string
  end.

(** The execution status agrees with the status the last blocking wait
    delivered, if any. *)
Definition status_agrees (p : process) (seen : option Z) : Prop :=
  match seen with
  | None => lastExitStatus p = 0
  | Some status =>
      if WIFSIGNALED status
      then lastExitStatus p = -1 /\ lastTerminalSignal p = WTERMSIG status
      else lastExitStatus p = WEXITSTATUS status
  end.

(** *** Concrete inputs for the examples *)

Definition os_example : os_replies :=
  {| fork_ret := 4321; open_in_ret := 3; open_out_ret := 4;
     execvp_ok := true; wait_ret := 4321; wait_status := 0;
     home := Some "/root"; chdir_ret := 0 |}.

Definition with_fork (os : os_replies) (r : Z) : os_replies :=
  {| fork_ret := r; open_in_ret := open_in_ret os;
     open_out_ret := open_out_ret os; execvp_ok := execvp_ok os;
     wait_ret := wait_ret os; wait_status := wait_status os;
     home := home os; chdir_ret := chdir_ret os |}.

Definition with_wait_ret (os : os_replies) (r : Z) : os_replies :=
  {| fork_ret := fork_ret os; open_in_ret := open_in_ret os;
     open_out_ret := open_out_ret os; execvp_ok := execvp_ok os;
     wait_ret := r; wait_status := wait_status os;
     home := home os; chdir_ret := chdir_ret os |}.

(** A line of [n + 1] one-letter words. *)
Fixpoint words (n : nat) : string :=
  match n with
  | O => "a"
  | S n' => ("a " ++ words n')%string
  end.

(** *** Lines written after the grammar of the shell

    [word* (< word | > word | &)*]: the words of the command, then
    redirections and background markers in any order. *)

(** A word that the parser takes as an argument as it stands: no
    operator, no marker. *)
Definition plain_word (w : string) : bool :=
  is_word w && negb (is_redirect w) && negb (streq w "&")
  && negb (has_marker w).

Inductive item : Type :=
| Redirect_in (path : string)
| Redirect_out (path : string)
| Ampersand.

Definition item_tokens (it : item) : list string :=
  match it with
  | Redirect_in path => ["<"; path]
  | Redirect_out path => [">"; path]
  | Ampersand => ["&"]
  end.

Definition item_ok (it : item) : bool :=
  match it with
  | Redirect_in path | Redirect_out path => is_word path
  | Ampersand => true
  end.

(** The last input path, the last output path, and whether a background
    marker counts, read off the items. *)
Fixpoint items_input (its : list item) (acc : option string) : option string :=
  match its with
  | [] => acc
  | Redirect_in path :: r => items_input r (Some path)
  | _ :: r => items_input r acc
  end.

Fixpoint items_output (its : list item) (acc : option string) : option string :=
  match its with
  | [] => acc
  | Redirect_out path :: r => items_output r (Some path)
  | _ :: r => items_output r acc
  end.

Fixpoint items_background (mode : Z) (its : list item) (acc : Z) : Z :=
  match its with
  | [] => acc
  | Ampersand :: r => items_background mode r (if mode =? 0 then 1 else acc)
  | _ :: r => items_background mode r acc
  end.

Definition grammar_line (ws : list string) (its : list item) : string :=
  String.concat " " (ws ++ flat_map item_tokens its).

(** *** Notions for the statements about the loop and the launcher *)

(** What every turn of the loop prints first. *)
Definition prompt : list event := [Printf ": "; Fflush].

(** The lines the loop passes over: blank ones and comments. *)
Definition skipped (input : string) : bool :=
  match input with
  | EmptyString => true
  | String c _ => Ascii.eqb c "#"
  end.

Fixpoint newline_free (s : string) : bool :=
  match s with
  | EmptyString => true
  | String c r => negb (Ascii.eqb c (ascii_of_nat 10)) && newline_free r
  end.

(** The calls only a child makes: dispositions, redirection, [execvp]. *)
Definition is_child_call (e : event) : bool :=
  match e with
  | Signal _ _ | Open _ _ _ | Dup2 _ _ | Close _ | Execvp _ _ => true
  | _ => false
  end.

Definition is_fork (e : event) : bool :=
  match e with
  | Fork _ => true
  | _ => false
  end.

Definition is_execvp (e : event) : bool :=
  match e with
  | Execvp _ _ => true
  | _ => false
  end.

(** A run of a command, after the prompt was printed. *)
Definition after_prompt {A : Type} (x : result A * process * list event)
  : result A * process * list event :=
  let '(r, q, t) := x in (r, q, (prompt ++ t)%list).

(** What a child does for its redirections when both [open] calls
    succeed. *)
Definition redirections (os : os_replies) (inF outF : option string)
  : list event :=
  (match inF with
   | Some path =>
       [Open path O_RDONLY (open_in_ret os); Dup2 (open_in_ret os) 0;
        Close (open_in_ret os)]
   | None => []
   end
   ++ match outF with
      | Some path =>
          [Open path (O_WRONLY_CREAT_TRUNC 420) (open_out_ret os);
           Dup2 (open_out_ret os) 1; Close (open_out_ret os)]
      | None => []
      end)%list.

(** How many SIGTSTP a list of stimuli holds. *)
Fixpoint count_SIGTSTP (l : list stimulus) : nat :=
  match l with
  | [] => O
  | Got_SIGTSTP :: r => S (count_SIGTSTP r)
  | _ :: r => count_SIGTSTP r
  end.

(** The turns in which [fork], if called, returns in the shell itself. *)
Definition in_shell (s : stimulus) : bool :=
  match s with
  | Turn os _ => negb (fork_ret os =? 0)
  | _ => true
  end.

End Smallsh.

(* ================================================================== *)
(** * Theorems *)
(* ================================================================== *)

Import CStr WaitStatus Smallsh.

Section StringFacts.

Lemma strlen_app (a b : string) :
  strlen (a ++ b) = (strlen a + strlen b)%nat.
Proof.
  unfold strlen. induction a as [|c a IH]; simpl; [reflexivity|].
  now rewrite IH.
Qed.

Lemma app_assoc_s (a b c : string) : ((a ++ b) ++ c = a ++ (b ++ c))%string.
Proof. induction a as [|x a IH]; simpl; [reflexivity|]. now rewrite IH. Qed.

Lemma app_nil_r_s (a : string) : (a ++ EmptyString)%string = a.
Proof. induction a as [|x a IH]; simpl; [reflexivity|]. now rewrite IH. Qed.

Lemma take_app (a b : string) : take (strlen a) (a ++ b) = a.
Proof.
  unfold strlen. induction a as [|c a IH]; simpl.
  - destruct b; reflexivity.
  - now rewrite IH.
Qed.

Lemma strlen_take (n : nat) (s : string) : (strlen (take n s) <= n)%nat.
Proof.
  unfold strlen. revert s. induction n as [|n IH]; intros s; simpl; [lia|].
  destruct s as [|c s]; simpl; [lia|]. specialize (IH s). lia.
Qed.

Lemma take_nonempty (n : nat) (s : string) :
  (0 < n)%nat -> s <> EmptyString -> (1 <= strlen (take n s))%nat.
Proof.
  intros Hn Hs. destruct n as [|n]; [lia|].
  destruct s as [|c s]; [congruence|]. unfold strlen. simpl. lia.
Qed.

Lemma list_of_app (a b : string) :
  list_ascii_of_string (a ++ b)
  = (list_ascii_of_string a ++ list_ascii_of_string b)%list.
Proof. induction a as [|c a IH]; simpl; [reflexivity|]. now rewrite IH. Qed.

Lemma length_list_of (a : string) :
  List.length (list_ascii_of_string a) = strlen a.
Proof. unfold strlen. induction a as [|c a IH]; simpl; [reflexivity|]. now rewrite IH. Qed.

End StringFacts.

Section MarkerFacts.

(** Whether the marker starts a string only depends on its first two
    characters. *)
Lemma prefix_marker_cons (c : ascii) (x : string) :
  String.prefix marker (String c x)
  = (Ascii.eqb c "$" && String.prefix "$" x)%bool.
Proof.
  unfold marker. cbn [String.prefix].
  destruct (ascii_dec "$" c) as [<-|Hne].
  - reflexivity.
  - destruct (Ascii.eqb_spec c "$"); [congruence|reflexivity].
Qed.

Lemma prefix_dollar_app (seg rest : string) :
  String.prefix "$" (seg ++ marker ++ rest) = String.prefix "$" (seg ++ "$").
Proof.
  destruct seg as [|a seg]; cbn [append String.prefix]; [reflexivity|].
  destruct (ascii_dec "$" a); [|reflexivity].
  now destruct (seg ++ "$")%string, (seg ++ marker ++ rest)%string.
Qed.

Lemma prefix_marker_true (s : string) :
  String.prefix marker s = true -> exists q, s = (marker ++ q)%string.
Proof.
  unfold marker.
  destruct s as [|a [|b q]]; cbn [String.prefix]; try discriminate.
  - destruct (ascii_dec "$" a); discriminate.
  - destruct (ascii_dec "$" a) as [<-|]; [|discriminate].
    destruct (ascii_dec "$" b) as [<-|]; [|discriminate].
    intros _. now exists q.
Qed.

Lemma strstr_here (q : string) :
  strstr (marker ++ q) marker = Some (marker ++ q)%string.
Proof.
  unfold marker. cbn [append strstr].
  replace (String.prefix "$$" (String "$" (String "$" q))) with true;
    [reflexivity|].
  now destruct q.
Qed.

Lemma has_marker_cons (c : ascii) (x : string) :
  has_marker (String c x)
  = (String.prefix marker (String c x) || has_marker x)%bool.
Proof.
  unfold has_marker. cbn [strstr].
  destruct (String.prefix marker (String c x)); reflexivity.
Qed.

Lemma segment_ok_cons (c : ascii) (seg : string) :
  segment_ok (String c seg) = true ->
  String.prefix marker (String c (seg ++ "$")) = false
  /\ segment_ok seg = true.
Proof.
  unfold segment_ok. cbn [append]. rewrite has_marker_cons.
  rewrite negb_true_iff, orb_false_iff. intros [H1 H2].
  split; [exact H1|]. now rewrite H2.
Qed.

(** The marker that follows an admissible segment is the first one. *)
Lemma strstr_chunk (seg rest : string) :
  segment_ok seg = true ->
  strstr (seg ++ marker ++ rest) marker = Some (marker ++ rest)%string.
Proof.
  induction seg as [|c seg IH]; intros Hok.
  - apply strstr_here.
  - apply segment_ok_cons in Hok as [Hp Hok].
    cbn [append strstr].
    rewrite prefix_marker_cons, prefix_dollar_app, <- prefix_marker_cons, Hp.
    now apply IH.
Qed.

(** Conversely, what [strstr] finds splits the string that way. *)
Lemma strstr_split (s p : string) :
  strstr s marker = Some p ->
  exists seg q,
    s = (seg ++ marker ++ q)%string /\ p = (marker ++ q)%string
    /\ segment_ok seg = true.
Proof.
  induction s as [|c r IH]; cbn [strstr].
  - simpl. discriminate.
  - destruct (String.prefix marker (String c r)) eqn:Hp.
    + intros [= <-]. apply prefix_marker_true in Hp as [q Hq].
      exists EmptyString, q. repeat split; assumption.
    + intros H. destruct (IH H) as (seg & q & -> & -> & Hok).
      exists (String c seg), q. repeat split.
      unfold segment_ok in *. cbn [append]. rewrite has_marker_cons.
      rewrite prefix_marker_cons, <- prefix_dollar_app with (rest := q),
        <- prefix_marker_cons, Hp.
      exact Hok.
Qed.

Lemma advance_marker (q : string) : advance 2 (marker ++ q) = q.
Proof. reflexivity. Qed.

Lemma strlen_marker_app (q : string) :
  strlen (marker ++ q) = S (S (strlen q)).
Proof. reflexivity. Qed.

(** Every string reads as chunks followed by a marker-free tail. *)
Lemma chunks_exist (n : nat) :
  forall s, (strlen s <= n)%nat ->
    exists segs tail,
      s = (chunks segs ++ tail)%string
      /\ forallb segment_ok segs = true
      /\ has_marker tail = false
      /\ (has_marker s = true -> segs <> []).
Proof.
  induction n as [|n IH]; intros s Hlen.
  - destruct s; [|unfold strlen in Hlen; simpl in Hlen; lia].
    exists [], EmptyString. repeat split. discriminate.
  - destruct (strstr s marker) as [p|] eqn:Hs.
    + destruct (strstr_split _ _ Hs) as (seg & q & -> & _ & Hok).
      destruct (IH q) as (segs & tail & -> & Hall & Htail & _).
      { rewrite strlen_app, strlen_marker_app in Hlen. lia. }
      exists (seg :: segs), tail. repeat split.
      * cbn [chunks]. now rewrite !app_assoc_s.
      * cbn [forallb]. now rewrite Hok, Hall.
      * exact Htail.
      * discriminate.
    + exists [], s. repeat split.
      * unfold has_marker. now rewrite Hs.
      * unfold has_marker. rewrite Hs. discriminate.
Qed.

(** The counting loop counts the chunks. *)
Lemma count_loop_chunks (segs : list string) :
  forall tail fuel c,
    forallb segment_ok segs = true ->
    has_marker tail = false ->
    (List.length segs <= fuel)%nat ->
    count_loop fuel (strstr (chunks segs ++ tail) marker) c
    = c + Z.of_nat (List.length segs).
Proof.
  induction segs as [|seg segs IH]; intros tail fuel c Hall Htail Hfuel.
  - cbn [chunks append]. unfold has_marker in Htail.
    destruct (strstr tail marker); [discriminate|].
    destruct fuel; simpl; lia.
  - cbn [forallb] in Hall. apply andb_true_iff in Hall as [Hok Hall].
    cbn [chunks]. rewrite !app_assoc_s, strstr_chunk by assumption.
    destruct fuel as [|fuel]; [simpl in Hfuel; lia|].
    cbn [count_loop]. rewrite advance_marker.
    rewrite IH; try assumption; [|simpl in Hfuel; lia].
    cbn [List.length]. lia.
Qed.

End MarkerFacts.

Section BufferFacts.


Lemma length_cells (s : string) : List.length (cells s) = strlen s.
Proof. unfold cells. now rewrite length_map, length_list_of. Qed.

Lemma cells_app (a b : string) : cells (a ++ b) = (cells a ++ cells b)%list.
Proof. unfold cells. now rewrite list_of_app, map_app. Qed.

Lemma poke_middle {A : Type} (pre : list A) (x y : A) (post : list A) :
  poke (pre ++ x :: post)%list (List.length pre) y = Some (pre ++ y :: post)%list.
Proof.
  induction pre as [|a pre IH]; simpl; [reflexivity|]. now rewrite IH.
Qed.

Lemma poke_length {A : Type} (a : list A) :
  forall i x a', poke a i x = Some a' -> List.length a' = List.length a.
Proof.
  induction a as [|y a IH]; intros [|i] x a'; simpl; try discriminate.
  - intros [= <-]. reflexivity.
  - destruct (poke a i x) eqn:E; [|discriminate].
    intros [= <-]. simpl. f_equal. eauto.
Qed.

Lemma poke_in_bounds {A : Type} (a : list A) :
  forall i x, (i < List.length a)%nat -> exists a', poke a i x = Some a'.
Proof.
  induction a as [|y a IH]; intros [|i] x; simpl; try lia.
  - eauto.
  - intros H. destruct (IH i x) as [a' ->]; [lia|]. eauto.
Qed.

Lemma poke_out_of_bounds {A : Type} (a : list A) :
  forall i x, (List.length a <= i)%nat -> poke a i x = None.
Proof.
  induction a as [|y a IH]; intros [|i] x; simpl; try lia; try reflexivity.
  intros H. rewrite IH; [reflexivity|lia].
Qed.

(** Storing a text over cells that are there replaces exactly those. *)
Lemma store_all_middle (src : string) :
  forall pre mid post,
    List.length mid = strlen src ->
    store_all (pre ++ mid ++ post)%list (List.length pre) src
    = Some (pre ++ cells src ++ post)%list.
Proof.
  induction src as [|c r IH]; intros pre mid post Hlen.
  - destruct mid; [|discriminate]. reflexivity.
  - destruct mid as [|m mid]; [discriminate|].
    cbn [store_all]. unfold store. cbn [app].
    rewrite poke_middle.
    replace (pre ++ Some c :: mid ++ post)%list
      with ((pre ++ [Some c]) ++ mid ++ post)%list
      by now rewrite <- app_assoc.
    replace (S (List.length pre)) with (List.length (pre ++ [Some c])%list)
      by (rewrite length_app; simpl; lia).
    rewrite IH by (unfold strlen in *; simpl in Hlen; lia).
    unfold cells. cbn [list_ascii_of_string map].
    now rewrite <- app_assoc.
Qed.

Lemma store_all_free (src : string) (pre free : list (option ascii)) :
  (strlen src <= List.length free)%nat ->
  store_all (pre ++ free)%list (List.length pre) src
  = Some (pre ++ cells src ++ skipn (strlen src) free)%list.
Proof.
  intros H.
  rewrite <- (firstn_skipn (strlen src) free) at 1.
  apply store_all_middle. rewrite length_firstn. lia.
Qed.

(** What the copying loop leaves in the block: the expansion of the
    chunks and its terminator; the tail is never stored. *)
Lemma copy_loop_chunks (pidstr : string) (segs : list string) :
  forall tail pre free fuel,
    forallb segment_ok segs = true ->
    has_marker tail = false ->
    segs <> [] ->
    (List.length segs <= fuel)%nat ->
    (strlen (expansion pidstr segs) + 1 <= List.length free)%nat ->
    exists post,
      copy_loop fuel pidstr (chunks segs ++ tail) (chunks segs ++ tail)
        (pre ++ free)%list (List.length pre)
      = Returns (pre ++ cells (expansion pidstr segs) ++ Some NUL :: post)%list.
Proof.
  induction segs as [|seg segs IH]; intros tail pre free fuel Hall Htail Hne Hfuel Hroom;
    [congruence|].
  cbn [forallb] in Hall. apply andb_true_iff in Hall as [Hok Hall].
  destruct fuel as [|fuel]; [simpl in Hfuel; lia|].
  cbn [chunks expansion] in *. rewrite !app_assoc_s.
  cbn [copy_loop]. rewrite strstr_chunk by assumption.
  rewrite !strlen_app in Hroom.
  replace (strlen (seg ++ marker ++ chunks segs ++ tail)
           - strlen (marker ++ chunks segs ++ tail))%nat with (strlen seg)
    by (rewrite (strlen_app seg); lia).
  unfold memcpy. rewrite take_app.
  rewrite store_all_free by lia.
  unfold strcpy.
  replace (pre ++ cells seg ++ skipn (strlen seg) free)%list
    with ((pre ++ cells seg) ++ skipn (strlen seg) free)%list
    by now rewrite <- app_assoc.
  replace (List.length pre + strlen seg)%nat
    with (List.length (pre ++ cells seg)%list)
    by now rewrite length_app, length_cells.
  rewrite store_all_free
    by (rewrite strlen_app, length_skipn; unfold strlen at 2; simpl; lia).
  rewrite advance_marker, cells_app, strlen_app.
  set (f2 := skipn _ (skipn _ free)).
  replace ((pre ++ cells seg) ++ (cells pidstr ++ cells (String NUL EmptyString)) ++ f2)%list
    with ((pre ++ cells seg ++ cells pidstr) ++ Some NUL :: f2)%list
    by (rewrite <- !app_assoc; reflexivity).
  replace (List.length (pre ++ cells seg)%list + strlen pidstr)%nat
    with (List.length (pre ++ cells seg ++ cells pidstr)%list)
    by (rewrite !length_app, !length_cells; lia).
  destruct segs as [|seg' segs].
  - cbn [chunks expansion append]. unfold has_marker in Htail.
    destruct fuel; cbn [copy_loop];
      destruct (strstr tail marker); try discriminate;
      exists f2; rewrite app_nil_r_s, !cells_app, <- !app_assoc; reflexivity.
  - destruct (IH tail (pre ++ cells seg ++ cells pidstr)%list (Some NUL :: f2) fuel)
      as [post Hpost]; try assumption; try discriminate.
    + simpl in Hfuel |- *. lia.
    + subst f2. cbn [List.length]. rewrite !length_skipn.
      unfold strlen at 4. simpl String.length. lia.
    + exists post. rewrite Hpost. f_equal.
      rewrite !cells_app, <- !app_assoc. reflexivity.
Qed.

(** Reading back a stored, terminated text. *)
Lemma c_str_cells (w : string) (post : buffer) :
  no_nul w = true ->
  c_str (cells w ++ Some NUL :: post)%list = Some w.
Proof.
  induction w as [|c w IH]; intros Hw.
  - reflexivity.
  - cbn [no_nul] in Hw. apply andb_true_iff in Hw as [Hc Hw].
    unfold cells in *. cbn [list_ascii_of_string map app c_str].
    apply negb_true_iff in Hc. rewrite Hc, IH by assumption. reflexivity.
Qed.

Lemma c_str_terminated (w : string) (post : buffer) :
  exists s, c_str (cells w ++ Some NUL :: post)%list = Some s.
Proof.
  induction w as [|c w [s IH]].
  - now exists EmptyString.
  - unfold cells in *. cbn [list_ascii_of_string map app c_str].
    destruct (Ascii.eqb c NUL); [eauto|]. rewrite IH. eauto.
Qed.

End BufferFacts.

Section ExpandFacts.

Lemma no_nul_app (a b : string) :
  no_nul (a ++ b) = (no_nul a && no_nul b)%bool.
Proof.
  induction a as [|c a IH]; simpl; [reflexivity|].
  now rewrite IH, andb_assoc.
Qed.

Lemma no_nul_take (n : nat) :
  forall s, no_nul s = true -> no_nul (take n s) = true.
Proof.
  induction n as [|n IH]; intros [|c s]; simpl; try reflexivity.
  rewrite !andb_true_iff. intros [Hc Hs]. auto.
Qed.

Lemma no_nul_uint (d : Decimal.uint) :
  no_nul (NilEmpty.string_of_uint d) = true.
Proof. induction d; simpl; auto. Qed.

Lemma no_nul_decimal (z : Z) : no_nul (decimal z) = true.
Proof.
  unfold decimal, NilZero.string_of_int, NilZero.string_of_uint.
  destruct (Z.to_int z) as [d|d]; destruct d;
    try reflexivity; try apply (no_nul_uint (_ _));
    cbn [no_nul]; try apply (no_nul_uint (_ _)).
Qed.

Lemma decimal_nonempty (z : Z) : decimal z <> EmptyString.
Proof.
  unfold decimal, NilZero.string_of_int, NilZero.string_of_uint.
  destruct (Z.to_int z) as [d|d]; destruct d; discriminate.
Qed.

(** [SS_PID] holds between one and six characters, none of them the
    terminator. *)
Lemma SS_PID_length (pid : Z) :
  (1 <= strlen (snprintf_d 7 pid) <= 6)%nat.
Proof.
  unfold snprintf_d. split.
  - apply take_nonempty; [simpl; lia|apply decimal_nonempty].
  - apply (strlen_take (7 - 1)).
Qed.

Lemma SS_PID_no_nul (pid : Z) : no_nul (snprintf_d 7 pid) = true.
Proof. apply no_nul_take, no_nul_decimal. Qed.

Lemma strlen_expansion (pidstr : string) (segs : list string) :
  (strlen (expansion pidstr segs) + 2 * List.length segs
   = strlen (chunks segs) + strlen pidstr * List.length segs)%nat.
Proof.
  induction segs as [|seg segs IH]; [simpl; lia|].
  cbn [expansion chunks List.length].
  rewrite !strlen_app. change (strlen marker) with 2%nat. lia.
Qed.

Lemma strlen_chunks_markers (segs : list string) :
  (2 * List.length segs <= strlen (chunks segs))%nat.
Proof.
  induction segs as [|seg segs IH]; [simpl; lia|].
  cbn [chunks List.length].
  rewrite !strlen_app. change (strlen marker) with 2%nat. lia.
Qed.

Lemma no_nul_expansion (pidstr : string) (segs : list string) :
  no_nul pidstr = true ->
  no_nul (chunks segs) = true ->
  no_nul (expansion pidstr segs) = true.
Proof.
  intros Hp. induction segs as [|seg segs IH]; [reflexivity|].
  cbn [expansion chunks]. rewrite !no_nul_app, !andb_true_iff.
  intros (Hs & _ & Hr). auto.
Qed.

(** The size handed to [malloc], without the wrap-around. *)
Lemma newSize_exact (L D n : Z) :
  0 <= L + (D - 2) * n + 1 < 2 ^ 64 ->
  size_t (size_t (L + size_t (size_t (D - 2) * n)) + 1)
  = L + (D - 2) * n + 1.
Proof.
  intros H. unfold size_t.
  rewrite Z.mul_mod_idemp_l, Z.add_mod_idemp_r, Z.add_mod_idemp_l by lia.
  now apply Z.mod_small.
Qed.

(** The block [expandShellID] returns, for a token read as chunks and a
    tail: it holds the expansion of the chunks, terminated. *)
Lemma expandShellID_block (pid : Z) (segs : list string) (tail : string) :
  forallb segment_ok segs = true ->
  has_marker tail = false ->
  segs <> [] ->
  (strlen (chunks segs ++ tail) < MAX_INPUT_SIZE)%nat ->
  let token := (chunks segs ++ tail)%string in
  let SS_PID := snprintf_d 7 pid in
  let dollarCount := count_loop (S (strlen token)) (strstr token marker) 0 in
  let newSize :=
    size_t (size_t (Z.of_nat (strlen token)
                    + size_t (size_t (Z.of_nat (strlen SS_PID) - 2)
                              * dollarCount)) + 1) in
  dollarCount = Z.of_nat (List.length segs)
  /\ newSize = Z.of_nat (strlen (expansion SS_PID segs) + strlen tail + 1)
  /\ exists post,
      copy_loop (strlen token) SS_PID token token (malloc (Z.to_nat newSize)) 0
      = Returns (cells (expansion SS_PID segs) ++ Some NUL :: post)%list.
Proof.
  intros Hall Htail Hne Hlen token SS_PID dollarCount newSize.
  pose proof (SS_PID_length pid) as HD. fold SS_PID in HD.
  pose proof (strlen_expansion SS_PID segs) as He.
  assert (Htok : strlen token = (strlen (chunks segs) + strlen tail)%nat)
    by apply strlen_app.
  pose proof (strlen_chunks_markers segs) as Hm.
  assert (Hn : (List.length segs <= strlen token)%nat) by lia.
  assert (Hcount : dollarCount = Z.of_nat (List.length segs)).
  { unfold dollarCount. fold token in Hlen.
    unfold token at 2. rewrite count_loop_chunks; try assumption; lia. }
  assert (Hsize : newSize
                  = Z.of_nat (strlen (expansion SS_PID segs) + strlen tail + 1)).
  { unfold newSize. rewrite Hcount.
    unfold MAX_INPUT_SIZE in Hlen. fold token in Hlen.
    assert (Hz : Z.of_nat (strlen token)
                 + (Z.of_nat (strlen SS_PID) - 2) * Z.of_nat (List.length segs) + 1
                 = Z.of_nat (strlen (expansion SS_PID segs) + strlen tail + 1)).
    { rewrite Htok. apply (f_equal Z.of_nat) in He.
      rewrite !Nat2Z.inj_add, !Nat2Z.inj_mul in *. lia. }
    rewrite newSize_exact; [exact Hz|].
    rewrite Hz. change (2 ^ 64) with 18446744073709551616.
    assert (strlen (expansion SS_PID segs) <= strlen (chunks segs) + 6 * strlen token)%nat
      by nia.
    lia. }
  repeat split; try assumption.
  rewrite Hsize, Nat2Z.id.
  apply (copy_loop_chunks SS_PID segs tail [] (malloc _) (strlen token));
    try assumption.
  unfold malloc. rewrite repeat_length. lia.
Qed.

(** [expandShellID] on a token with at least one marker: the expansion
    of its chunks; what follows the last marker is left out. *)
Lemma expandShellID_chunks (pid : Z) (segs : list string) (tail : string) :
  forallb segment_ok segs = true ->
  has_marker tail = false ->
  segs <> [] ->
  (strlen (chunks segs ++ tail) < MAX_INPUT_SIZE)%nat ->
  no_nul (chunks segs ++ tail) = true ->
  expandShellID pid (chunks segs ++ tail)
  = Returns (expansion (snprintf_d 7 pid) segs).
Proof.
  intros Hall Htail Hne Hlen Hnul.
  destruct (expandShellID_block pid segs tail Hall Htail Hne Hlen)
    as (_ & _ & post & Hcopy).
  unfold expandShellID. rewrite Hcopy. cbn [and_then].
  rewrite c_str_cells; [reflexivity|].
  apply no_nul_expansion; [apply SS_PID_no_nul|].
  rewrite no_nul_app in Hnul. now apply andb_true_iff in Hnul.
Qed.

(** [expandShellID] returns a string for every token that holds the
    marker and fits the input buffer. *)
Lemma expandShellID_returns (pid : Z) (token : string) :
  has_marker token = true ->
  (strlen token < MAX_INPUT_SIZE)%nat ->
  exists e, expandShellID pid token = Returns e.
Proof.
  intros Hm Hlen.
  destruct (chunks_exist (strlen token) token (le_n _))
    as (segs & tail & -> & Hall & Htail & Hne).
  destruct (expandShellID_block pid segs tail Hall Htail (Hne Hm) Hlen)
    as (_ & _ & post & Hcopy).
  unfold expandShellID. rewrite Hcopy. cbn [and_then].
  destruct (c_str_terminated (expansion (snprintf_d 7 pid) segs) post) as [s ->].
  eauto.
Qed.

End ExpandFacts.

Section StrtokFacts.

Lemma skip_delims_length (s : string) :
  (strlen (skip_delims s) <= strlen s)%nat.
Proof.
  unfold strlen. induction s as [|c s IH]; simpl; [lia|].
  destruct (is_delim c); simpl; lia.
Qed.

Lemma cut_token_length (s : string) :
  (strlen (fst (cut_token s)) + strlen (snd (cut_token s)) <= strlen s)%nat.
Proof.
  unfold strlen. induction s as [|c s IH]; simpl; [lia|].
  destruct (is_delim c); simpl; [lia|].
  destruct (cut_token s) as [t rest]. simpl in *. lia.
Qed.

(** A token is never empty, and [strtok] moves on. *)
Lemma strtok_some (saved t rest : string) :
  strtok saved = (Some t, rest) ->
  (1 <= strlen t)%nat /\ (strlen t + strlen rest <= strlen saved)%nat.
Proof.
  unfold strtok. pose proof (skip_delims_length saved) as Hs.
  destruct (skip_delims saved) as [|c s] eqn:E; [discriminate|].
  pose proof (cut_token_length (String c s)) as Hc.
  assert (Hd : is_delim c = false).
  { clear -E. induction saved as [|x saved IH]; simpl in E; [discriminate|].
    destruct (is_delim x) eqn:Hx; [auto|]. now injection E as -> ->. }
  cbn [cut_token] in *. rewrite Hd in *.
  destruct (cut_token s) as [t' rest']. intros [= <- <-].
  unfold strlen in *. simpl in *. lia.
Qed.

Lemma strtok_none (saved rest : string) :
  strtok saved = (None, rest) -> rest = EmptyString.
Proof.
  unfold strtok. destruct (skip_delims saved); [now intros [= <-]|].
  destruct (cut_token _). discriminate.
Qed.

Lemma strtok_empty : strtok EmptyString = (None, EmptyString).
Proof. reflexivity. Qed.

Lemma tokens_within_enough (fuel1 : nat) :
  forall fuel2 saved,
    (strlen saved < fuel1)%nat -> (strlen saved < fuel2)%nat ->
    tokens_within fuel1 saved = tokens_within fuel2 saved.
Proof.
  induction fuel1 as [|fuel1 IH]; intros [|fuel2] saved H1 H2; try lia.
  cbn [tokens_within].
  destruct (strtok saved) as [[t|] rest] eqn:E; [|reflexivity].
  apply strtok_some in E as [Ht Hr]. f_equal. apply IH; lia.
Qed.

(** The words of a line, one call of [strtok] at a time. *)
Lemma tokens_unfold (saved : string) :
  tokens saved
  = match strtok saved with
    | (Some t, rest) => t :: tokens rest
    | (None, _) => []
    end.
Proof.
  unfold tokens at 1. cbn [tokens_within].
  destruct (strtok saved) as [[t|] rest] eqn:E; [|reflexivity].
  apply strtok_some in E as [Ht Hr]. f_equal.
  unfold tokens. apply tokens_within_enough; lia.
Qed.

(** Words written with one space between them are the words [strtok]
    hands out. *)
Lemma cut_token_word (w x : string) :
  space_free w = true ->
  cut_token w = (w, EmptyString)
  /\ cut_token (w ++ String " " x) = (w, x).
Proof.
  induction w as [|c w IH]; intros Hw; [split; reflexivity|].
  cbn [space_free] in Hw. apply andb_true_iff in Hw as [Hc Hw].
  apply negb_true_iff in Hc. destruct (IH Hw) as [H1 H2].
  cbn [append cut_token]. now rewrite Hc, H1, H2.
Qed.

Lemma strtok_word (w x : string) :
  is_word w = true ->
  strtok w = (Some w, EmptyString)
  /\ strtok (w ++ String " " x) = (Some w, x).
Proof.
  unfold is_word. rewrite andb_true_iff. intros [Hne Hw].
  destruct (cut_token_word w x Hw) as [H1 H2].
  destruct w as [|c w]; [discriminate|].
  cbn [space_free] in Hw. apply andb_true_iff in Hw as [Hc _].
  apply negb_true_iff in Hc.
  unfold strtok. cbn [append skip_delims]. rewrite Hc.
  cbn [append] in H2. now rewrite H1, H2.
Qed.

Lemma tokens_of_words (ws : list string) :
  forallb is_word ws = true ->
  tokens (String.concat " " ws) = ws.
Proof.
  induction ws as [|w ws IH]; intros Hall; [reflexivity|].
  cbn [forallb] in Hall. apply andb_true_iff in Hall as [Hw Hall].
  destruct (strtok_word w (String.concat " " ws) Hw) as [H1 H2].
  rewrite tokens_unfold. cbn [String.concat].
  destruct ws as [|w' ws].
  - rewrite H1. reflexivity.
  - change (w ++ " " ++ String.concat " " (w' :: ws))%string
      with (w ++ String " " (String.concat " " (w' :: ws)))%string.
    rewrite H2, IH by assumption. reflexivity.
Qed.

Lemma tokens_short (n : nat) :
  forall saved, (strlen saved <= n)%nat ->
    Forall (fun t => (strlen t <= strlen saved)%nat) (tokens saved).
Proof.
  induction n as [|n IH]; intros saved Hn; rewrite tokens_unfold;
    destruct (strtok saved) as [[t|] rest] eqn:E; try constructor;
    apply strtok_some in E as [Ht Hr]; try lia.
  eapply Forall_impl; [|apply IH; lia].
  cbn beta. intros a Ha. lia.
Qed.

End StrtokFacts.

Section ParseFacts.
Variables pid mode : Z.

Lemma parse_token_redirect_in (saved : string) (st : parsed) :
  parse_token pid mode "<" saved st
  = Returns (snd (strtok saved), set_inputFile st (fst (strtok saved))).
Proof. unfold parse_token. cbn. now destruct (strtok saved). Qed.

Lemma parse_token_redirect_out (saved : string) (st : parsed) :
  parse_token pid mode ">" saved st
  = Returns (snd (strtok saved), set_outputFile st (fst (strtok saved))).
Proof. unfold parse_token. cbn. now destruct (strtok saved). Qed.

Lemma parse_loop_none (fuel : nat) (saved : string) (st : parsed) :
  parse_loop fuel pid mode None saved st = Returns st.
Proof. now destruct fuel. Qed.

(** The loop of [parseInput] computes [scan] on the words of the line,
    and its bound is never reached. *)
Lemma parse_loop_scan (fuel : nat) :
  (forall tok saved st,
      (strlen saved < fuel)%nat ->
      parse_loop fuel pid mode (Some tok) saved st
      = scan pid mode (tok :: tokens saved) st)
  /\ (forall saved st,
      (strlen saved <= fuel)%nat ->
      (let '(token, saved') := strtok saved in
       parse_loop fuel pid mode token saved' st)
      = scan pid mode (tokens saved) st).
Proof.
  induction fuel as [|fuel [IHa IHb]].
  - split; [intros; lia|].
    intros saved st H. destruct saved; [|unfold strlen in H; simpl in H; lia].
    reflexivity.
  - assert (Ha : forall tok saved st,
               (strlen saved < S fuel)%nat ->
               parse_loop (S fuel) pid mode (Some tok) saved st
               = scan pid mode (tok :: tokens saved) st).
    { intros tok saved st H.
      cbn [parse_loop scan]. unfold parse_token.
      destruct (streq tok "<") eqn:E1.
      { rewrite (tokens_unfold saved).
        destruct (strtok saved) as [[f|] saved1] eqn:Ef; cbn [and_then].
        - apply strtok_some in Ef as [_ Hf]. apply IHb. lia.
        - apply strtok_none in Ef as ->. rewrite strtok_empty.
          apply parse_loop_none. }
      destruct (streq tok ">") eqn:E2.
      { rewrite (tokens_unfold saved).
        destruct (strtok saved) as [[f|] saved1] eqn:Ef; cbn [and_then].
        - apply strtok_some in Ef as [_ Hf]. apply IHb. lia.
        - apply strtok_none in Ef as ->. rewrite strtok_empty.
          apply parse_loop_none. }
      destruct (streq tok "&") eqn:E3.
      { destruct (mode =? 0); cbn [and_then]; apply IHb; lia. }
      destruct (strstr tok marker).
      - destruct (expandShellID pid tok); cbn [and_then]; try reflexivity.
        destruct (push_arg st a); cbn [and_then]; try reflexivity.
        apply IHb. lia.
      - destruct (push_arg st tok); cbn [and_then]; try reflexivity.
        apply IHb. lia. }
    split; [exact Ha|].
    intros saved st H. rewrite (tokens_unfold saved).
    destruct (strtok saved) as [[t|] saved1] eqn:E.
    + apply strtok_some in E as [Ht Hr]. apply Ha. lia.
    + apply parse_loop_none.
Qed.

Lemma parseInput_scan (input : string) (st : parsed) :
  parseInput pid mode input st
  = and_then
      (scan pid mode (tokens input)
         {| args := args st; i := O; inputFile := inputFile st;
            outputFile := outputFile st; background := background st |})
      end_args.
Proof.
  unfold parseInput.
  destruct (parse_loop_scan (S (strlen input))) as [_ Hb].
  specialize (Hb input). cbv zeta in Hb.
  destruct (strtok input) as [token saved]. rewrite Hb by lia. reflexivity.
Qed.

End ParseFacts.

Section ScanFacts.
Variables pid mode : Z.

Lemma and_then_assoc {A B C : Type} (r : result A) (f : A -> result B)
    (g : B -> result C) :
  and_then (and_then r f) g = and_then r (fun a => and_then (f a) g).
Proof. now destruct r. Qed.

Lemma and_then_returns {A B : Type} (r : result A) (f : A -> result B) (b : B) :
  and_then r f = Returns b -> exists a, r = Returns a /\ f a = Returns b.
Proof. destruct r; cbn; try discriminate. eauto. Qed.

Lemma last_cons_cons {A : Type} (a b : A) (l : list A) (d : A) :
  last (a :: b :: l) d = last (b :: l) d.
Proof. reflexivity. Qed.

(** Scanning stops at a word boundary when the word before it is no
    redirection operator. *)
Lemma scan_app (n : nat) :
  forall pre rest st,
    (List.length pre <= n)%nat ->
    is_redirect (last pre EmptyString) = false ->
    scan pid mode (pre ++ rest) st
    = and_then (scan pid mode pre st) (scan pid mode rest).
Proof.
  induction n as [|n IH]; intros pre rest st Hn Hlast.
  - destruct pre; [reflexivity|simpl in Hn; lia].
  - destruct pre as [|tok pre]; [reflexivity|].
    assert (Hpre : pre <> [] -> is_redirect (last pre EmptyString) = false).
    { destruct pre; [congruence|]. now rewrite last_cons_cons in Hlast. }
    assert (Hstep : forall st1,
               scan pid mode (pre ++ rest) st1
               = and_then (scan pid mode pre st1) (scan pid mode rest)).
    { intros st1. destruct pre as [|u pre]; [reflexivity|].
      apply IH; [simpl in Hn |- *; lia|]. apply Hpre. discriminate. }
    assert (Hskip : forall f pre' st1,
               pre = f :: pre' ->
               scan pid mode (pre' ++ rest) st1
               = and_then (scan pid mode pre' st1) (scan pid mode rest)).
    { intros f pre' st1 ->. destruct pre' as [|u pre']; [reflexivity|].
      apply IH; [simpl in Hn |- *; lia|].
      rewrite <- (last_cons_cons f u pre' EmptyString). apply Hpre. discriminate. }
    cbn [app scan].
    destruct (streq tok "<") eqn:E1.
    { destruct pre as [|f pre'].
      - cbn [last] in Hlast. unfold is_redirect in Hlast. now rewrite E1 in Hlast.
      - cbn [app]. eapply Hskip. reflexivity. }
    destruct (streq tok ">") eqn:E2.
    { destruct pre as [|f pre'].
      - cbn [last] in Hlast. unfold is_redirect in Hlast.
        now rewrite E2, orb_true_r in Hlast.
      - cbn [app]. eapply Hskip. reflexivity. }
    destruct (streq tok "&"); [apply Hstep|].
    destruct (strstr tok marker).
    + destruct (expandShellID pid tok); cbn [and_then]; try reflexivity.
      destruct (push_arg st a); cbn [and_then]; try reflexivity. apply Hstep.
    + destruct (push_arg st tok); cbn [and_then]; try reflexivity. apply Hstep.
Qed.

Lemma push_arg_returns (st : parsed) (s : string) :
  (i st < List.length (args st))%nat ->
  exists st', push_arg st s = Returns st'
              /\ List.length (args st') = List.length (args st)
              /\ i st' = S (i st)
              /\ inputFile st' = inputFile st
              /\ outputFile st' = outputFile st
              /\ background st' = background st.
Proof.
  intros H. unfold push_arg.
  destruct (poke_in_bounds (args st) (i st) (Ptr s) H) as [a Ha].
  rewrite Ha. eexists. repeat split. cbn. eapply poke_length, Ha.
Qed.


(** [parseInput] stays inside [args] when the line has fewer words than
    [args] has elements. *)
Lemma scan_returns (n : nat) :
  forall toks st,
    (List.length toks <= n)%nat ->
    (i st + List.length toks < List.length (args st))%nat ->
    Forall (fun t => (strlen t < MAX_INPUT_SIZE)%nat) toks ->
    exists st', scan pid mode toks st = Returns st'
                /\ List.length (args st') = List.length (args st)
                /\ (i st' <= i st + List.length toks)%nat.
Proof.
  induction n as [|n IH]; intros toks st Hn Hroom Hshort.
  - destruct toks; [|simpl in Hn; lia]. exists st. cbn. repeat split; lia.
  - destruct toks as [|tok rest]; [exists st; cbn; repeat split; lia|].
    inversion Hshort as [|? ? Htok Hrest]; subst.
    cbn [List.length] in *.
    assert (Hnext : forall st1,
               List.length (args st1) = List.length (args st) ->
               (i st1 <= S (i st))%nat ->
               exists st', scan pid mode rest st1 = Returns st'
                           /\ List.length (args st') = List.length (args st)
                           /\ (i st' <= i st + S (List.length rest))%nat).
    { intros st1 Ha Hi.
      destruct (IH rest st1) as (st' & Hs & Hl & Hi'); try assumption; try lia.
      exists st'. repeat split; [assumption|lia|lia]. }
    assert (Hskip : forall f rest' st1,
               rest = f :: rest' ->
               List.length (args st1) = List.length (args st) ->
               i st1 = i st ->
               exists st', scan pid mode rest' st1 = Returns st'
                           /\ List.length (args st') = List.length (args st)
                           /\ (i st' <= i st + S (List.length rest))%nat).
    { intros f rest' st1 -> Ha Hi. inversion Hrest; subst.
      cbn [List.length] in *.
      destruct (IH rest' st1) as (st' & Hs & Hl & Hi'); try assumption; try lia.
      exists st'. repeat split; [assumption|lia|lia]. }
    cbn [scan].
    destruct (streq tok "<").
    { destruct rest as [|f rest'].
      - eexists. repeat split. cbn. lia.
      - eapply Hskip; reflexivity. }
    destruct (streq tok ">").
    { destruct rest as [|f rest'].
      - eexists. repeat split. cbn. lia.
      - eapply Hskip; reflexivity. }
    destruct (streq tok "&").
    { apply Hnext; destruct (mode =? 0); cbn; lia. }
    destruct (strstr tok marker) eqn:Em.
    + destruct (expandShellID_returns pid tok) as [e ->]; [|assumption|].
      { unfold has_marker. now rewrite Em. }
      cbn [and_then].
      destruct (push_arg_returns st e) as (st1 & -> & Ha & Hi & _); [lia|].
      cbn [and_then]. apply Hnext; lia.
    + destruct (push_arg_returns st tok) as (st1 & -> & Ha & Hi & _); [lia|].
      cbn [and_then]. apply Hnext; lia.
Qed.





End ScanFacts.

(** ** A relation between the state before, the events, and the state
  after, carried through every command of the shell *)

Section Carried.

Variable R : process -> list event -> process -> Prop.

Hypothesis R_nil : forall p, R p [] p.
Hypothesis R_app :
  forall p t1 p1 t2 p2, R p t1 p1 -> R p1 t2 p2 -> R p (t1 ++ t2)%list p2.
Hypothesis R_event :
  forall p e, is_foreground_wait e = false -> R p [e] p.
Hypothesis R_signal :
  forall p signo d, R p [] (set_disposition p signo d).
Hypothesis R_mode : forall p m, R p [] (set_mode p m).
Hypothesis R_wait :
  forall p status pid ret,
    R p [Waitpid pid 0 ret (Some status)]
      (if WIFSIGNALED status
       then set_status p (-1) (WTERMSIG status)
       else set_status p (WEXITSTATUS status) (lastTerminalSignal p)).
Hypothesis R_wait_failed :
  forall p pid ret, R p [Waitpid pid 0 ret None] p.


Lemma carries_ret {A} (a : A) : carries R (ret a).
Proof. intros p. apply R_nil. Qed.

Lemma carries_exit {A} (c : Z) : carries R (@exit A c).
Proof. intros p. apply R_nil. Qed.

Lemma carries_undefined {A} (f : fault) : carries R (@undefined A f).
Proof. intros p. apply R_nil. Qed.

Lemma carries_signalled {A} (signo : Z) : carries R (@signalled A signo).
Proof. intros p. apply R_nil. Qed.

Lemma carries_lift {A} (r : result A) : carries R (lift r).
Proof. intros p. apply R_nil. Qed.

Lemma carries_get : carries R get.
Proof. intros p. apply R_nil. Qed.

Lemma carries_emit (e : event) :
  is_foreground_wait e = false -> carries R (emit e).
Proof. intros H p. now apply R_event. Qed.

Lemma carries_bind {A B} (m : M A) (f : A -> M B) :
  carries R m -> (forall a, carries R (f a)) -> carries R (bind m f).
Proof.
  intros Hm Hf p. specialize (Hm p). unfold bind.
  destruct (m p) as [[[a| | | |] p1] t1]; cbn in *; try assumption.
  specialize (Hf a p1). destruct (f a p1) as [[r p2] t2]. cbn in *.
  eapply R_app; eassumption.
Qed.

Lemma carries_signal (signo : Z) (d : disposition) : carries R (signal signo d).
Proof.
  intros p. cbn.
  replace [Signal signo d] with ([] ++ [Signal signo d])%list by reflexivity.
  eapply R_app; [apply R_signal|now apply R_event].
Qed.

Create HintDb carried.
Hint Resolve carries_ret carries_exit carries_undefined carries_signalled
  carries_lift carries_get carries_signal : carried.

Ltac carry :=
  repeat first
    [ solve [auto with carried]
    | apply carries_emit; reflexivity
    | apply carries_bind; [|intros ?]
    | match goal with
      | |- carries R (if ?c then _ else _) => destruct c
      | |- carries R (match ?x with _ => _ end) => destruct x
      end ].

Lemma R_event_then_mode (p : process) (e : event) (m : Z) :
  is_foreground_wait e = false -> R p [e] (set_mode p m).
Proof.
  intros H. change [e] with ([e] ++ [])%list.
  eapply R_app; [now apply R_event|apply R_mode].
Qed.

Lemma carries_handle_sigtstp : carries R handle_sigtstp.
Proof.
  intros p. cbv [handle_sigtstp bind get put write emit snd fst].
  destruct (negb (foreground_only_mode p =? 0));
    cbv [app]; now apply R_event_then_mode.
Qed.

Lemma carries_sigchld_loop (pending : list (positive * Z)) (more : bool) :
  carries R (sigchld_loop pending more).
Proof.
  induction pending as [|[child status] rest IH]; cbn [sigchld_loop].
  - now apply carries_emit.
  - unfold printf. carry.
Qed.

Lemma carries_handle_sigchld (pending : list (positive * Z)) (more : bool) :
  carries R (handle_sigchld pending more).
Proof.
  unfold handle_sigchld, fflush.
  apply carries_bind; [apply carries_sigchld_loop|intros _].
  now apply carries_emit.
Qed.

Lemma carries_foreground_wait (os : os_replies) (spawnPid : Z) :
  carries R (foreground_wait os spawnPid).
Proof.
  intros p. unfold foreground_wait, bind, get, put, emit, undefined.
  destruct (written_status os) as [status|]; cbn.
  - pose proof (R_wait p status spawnPid (wait_ret os)) as H.
    destruct (WIFSIGNALED status); cbn; exact H.
  - apply R_wait_failed.
Qed.

Lemma carries_child (os : os_replies) (a : list cell)
    (inF outF : option string) : carries R (child os a inF outF).
Proof.
  unfold child, redirect_input, redirect_output, execvp, perror.
  carry; intros p; apply R_nil.
Qed.

Hint Resolve carries_child carries_foreground_wait : carried.

Lemma carries_executeCommand (os : os_replies) (a : list cell)
    (inF outF : option string) (bg : Z) :
  carries R (executeCommand os a inF outF bg).
Proof.
  unfold executeCommand, perror, printf, fflush. carry.
Qed.

Hint Resolve carries_executeCommand : carried.

Lemma carries_dispatch (os : os_replies) (st : parsed) :
  carries R (dispatch os st).
Proof.
  unfold dispatch, handleExit, kill, handleCd, handleStatus, perror, printf,
    fflush.
  carry.
Qed.

Hint Resolve carries_dispatch : carried.

Lemma carries_handleCommand (os : os_replies) (input : string) :
  carries R (handleCommand os input).
Proof.
  unfold handleCommand. carry.
Qed.

Hint Resolve carries_handleCommand : carried.

Lemma carries_react (s : stimulus) : carries R (react s).
Proof.
  destruct s as [os line| |pending more]; cbn [react].
  - unfold main_turn, printf, fflush. carry.
  - apply carries_handle_sigtstp.
  - apply carries_handle_sigchld.
Qed.

Lemma carries_run (l : list stimulus) : carries R (run l).
Proof.
  induction l as [|s l IH]; cbn [run]; [apply carries_ret|].
  apply carries_bind; [apply carries_react|intros _; exact IH].
Qed.

End Carried.

(** ** Commands all of whose events are of a given kind *)

Section Emitted.

Variable P : event -> bool.


Lemma emits_ret {A} (a : A) : emits P (ret a).
Proof. intros p. reflexivity. Qed.

Lemma emits_exit {A} (c : Z) : emits P (@exit A c).
Proof. intros p. reflexivity. Qed.

Lemma emits_undefined {A} (f : fault) : emits P (@undefined A f).
Proof. intros p. reflexivity. Qed.

Lemma emits_signalled {A} (signo : Z) : emits P (@signalled A signo).
Proof. intros p. reflexivity. Qed.

Lemma emits_lift {A} (r : result A) : emits P (lift r).
Proof. intros p. reflexivity. Qed.

Lemma emits_get : emits P get.
Proof. intros p. reflexivity. Qed.

Lemma emits_put (q : process) : emits P (put q).
Proof. intros p. reflexivity. Qed.

Lemma emits_emit (e : event) : P e = true -> emits P (emit e).
Proof. intros H p. cbn. now rewrite H. Qed.

Lemma emits_bind {A B} (m : M A) (f : A -> M B) :
  emits P m -> (forall a, emits P (f a)) -> emits P (bind m f).
Proof.
  intros Hm Hf p. specialize (Hm p). unfold bind.
  destruct (m p) as [[[a| | | |] p1] t1]; cbn in *; try assumption.
  specialize (Hf a p1). destruct (f a p1) as [[r p2] t2]. cbn in *.
  rewrite forallb_app, Hm, Hf. reflexivity.
Qed.

Create HintDb emitted.
Hint Resolve emits_ret emits_exit emits_undefined emits_signalled emits_lift
  emits_get emits_put : emitted.

Ltac emitting :=
  repeat first
    [ solve [auto with emitted]
    | apply emits_emit; solve [reflexivity | assumption | auto with emitted]
    | apply emits_bind; [|intros ?]
    | match goal with
      | |- emits P (if ?c then _ else _) => destruct c
      | |- emits P (match ?x with _ => _ end) => destruct x
      end ].


Hypothesis P_plain : forall e, plain e = true -> P e = true.

Lemma emits_plain (e : event) : plain e = true -> emits P (emit e).
Proof. intros H. now apply emits_emit, P_plain. Qed.

Lemma emits_signal (signo : Z) (d : disposition) : emits P (signal signo d).
Proof. intros p. cbn. now rewrite P_plain. Qed.

Hint Resolve emits_signal : emitted.

Ltac emitting_plain :=
  repeat first
    [ solve [auto with emitted]
    | apply emits_plain; reflexivity
    | apply emits_emit; solve [assumption | auto with emitted]
    | apply emits_bind; [|intros ?]
    | match goal with
      | |- emits P (if ?c then _ else _) => destruct c
      | |- emits P (match ?x with _ => _ end) => destruct x
      end ].

Lemma emits_execvp (os : os_replies) (a : list cell) : emits P (execvp os a).
Proof.
  unfold execvp, perror. emitting_plain; intros p; reflexivity.
Qed.

(** The child, given that its two [open] calls, if any, are of the
    kind. *)
Lemma emits_child (os : os_replies) (a : list cell)
    (inF outF : option string) :
  (forall path, inF = Some path ->
                P (Open path O_RDONLY (open_in_ret os)) = true) ->
  (forall path, outF = Some path ->
                P (Open path (O_WRONLY_CREAT_TRUNC 420) (open_out_ret os))
                = true) ->
  emits P (child os a inF outF).
Proof.
  intros Hin Hout. unfold child.
  apply emits_bind; [apply emits_signal|intros _].
  apply emits_bind; [apply emits_signal|intros _].
  apply emits_bind; [|intros _].
  { destruct inF as [path|]; [|apply emits_ret].
    specialize (Hin path eq_refl).
    unfold redirect_input, perror. emitting_plain. }
  apply emits_bind; [|intros _].
  { destruct outF as [path|]; [|apply emits_ret].
    specialize (Hout path eq_refl).
    unfold redirect_output, perror. emitting_plain. }
  apply emits_execvp.
Qed.

(** The three built-ins, given that what [status] prints is of the
    kind. *)
Lemma emits_builtins (os : os_replies) (a : list cell) :
  (forall p, P (Printf (status_text p)) = true) ->
  emits P handleExit /\ emits P (handleCd os a) /\ emits P handleStatus.
Proof.
  intros Hs. repeat split.
  - unfold handleExit, kill. emitting_plain.
  - unfold handleCd, perror. emitting_plain.
  - unfold handleStatus, printf, fflush.
    apply emits_bind; [apply emits_get|intros q].
    apply emits_bind; [apply emits_emit, Hs|intros _].
    now apply emits_plain.
Qed.

(** The whole dispatch, given that every [printf] is of the kind, and
    the [open] calls a child makes for the parsed redirections. *)
Lemma emits_dispatch (os : os_replies) (st : parsed) :
  (forall s, P (Printf s) = true) ->
  (forall path, inputFile st = Some path ->
                P (Open path O_RDONLY (open_in_ret os)) = true) ->
  (forall path, outputFile st = Some path ->
                P (Open path (O_WRONLY_CREAT_TRUNC 420) (open_out_ret os))
                = true) ->
  emits P (dispatch os st).
Proof.
  intros Hp Hin Hout.
  destruct (emits_builtins os (args st)) as (He & Hc & Hs); [auto|].
  unfold dispatch.
  destruct (nth_error (args st) 0) as [[| |verb]|];
    try apply emits_undefined.
  destruct (streq verb "exit"); [exact He|].
  destruct (streq verb "cd"); [exact Hc|].
  destruct (streq verb "status"); [exact Hs|].
  unfold executeCommand, perror, printf, fflush.
  apply emits_bind; [now apply emits_plain|intros _].
  apply emits_bind; [apply emits_get|intros q].
  destruct (fork_ret os =? -1); [emitting_plain|].
  destruct (fork_ret os =? 0); [now apply emits_child|].
  destruct (negb (background st =? 0) && (foreground_only_mode q =? 0)).
  { apply emits_bind; [apply emits_emit, Hp|intros _]. now apply emits_plain. }
  unfold foreground_wait. emitting_plain.
Qed.

End Emitted.

Section WaitStatusFacts.

(** An exit status read off any [int] lies between 0 and 255. *)
Lemma WEXITSTATUS_range (status : Z) : 0 <= WEXITSTATUS status <= 255.
Proof.
  unfold WEXITSTATUS. rewrite Z.shiftr_land.
  change (Z.shiftr 65280 8) with (Z.ones 8).
  rewrite Z.land_ones by lia.
  pose proof (Z.mod_pos_bound (Z.shiftr status 8) (2 ^ 8)). lia.
Qed.



Lemma exited_all : forallb exited_ok (seq 0 256) = true.
Proof. vm_compute. reflexivity. Qed.

Lemma killed_all : forallb killed_ok (seq 1 126) = true.
Proof. vm_compute. reflexivity. Qed.

(** The macros read back how the child ended. *)
Lemma decode_exited (k : Z) :
  0 <= k <= 255 ->
  WIFSIGNALED (encode (Exited k)) = false
  /\ WEXITSTATUS (encode (Exited k)) = k.
Proof.
  intros H. pose proof exited_all as Hall.
  rewrite forallb_forall in Hall.
  specialize (Hall (Z.to_nat k)).
  unfold exited_ok in Hall. rewrite Z2Nat.id in Hall by lia.
  rewrite andb_true_iff, negb_true_iff, Z.eqb_eq in Hall.
  apply Hall, in_seq. lia.
Qed.

Lemma decode_killed (s : Z) (core : bool) :
  1 <= s <= 126 ->
  WIFSIGNALED (encode (Killed s core)) = true
  /\ WTERMSIG (encode (Killed s core)) = s.
Proof.
  intros H. pose proof killed_all as Hall.
  rewrite forallb_forall in Hall.
  specialize (Hall (Z.to_nat s)).
  unfold killed_ok in Hall. rewrite Z2Nat.id in Hall by lia.
  rewrite !andb_true_iff, !Z.eqb_eq in Hall.
  destruct Hall as [[[H1 H2] H3] H4]; [apply in_seq; lia|].
  destruct core; auto.
Qed.

End WaitStatusFacts.

Section LauncherFacts.

Lemma handleStatus_run (p : process) :
  handleStatus p = (Returns tt, p, [Printf (status_text p); Fflush]).
Proof. reflexivity. Qed.

(** The parent waits when no background launch was asked for or the
    mode forbids it. *)
Lemma executeCommand_foreground (os : os_replies) (a : list cell)
    (inF outF : option string) (bg : Z) (p : process) :
  fork_ret os <> -1 ->
  fork_ret os <> 0 ->
  bg = 0 \/ foreground_only_mode p <> 0 ->
  executeCommand os a inF outF bg p
  = match written_status os with
    | Some status =>
        (Returns tt,
         (if WIFSIGNALED status
          then set_status p (-1) (WTERMSIG status)
          else set_status p (WEXITSTATUS status) (lastTerminalSignal p)),
         [Fork (fork_ret os);
          Waitpid (fork_ret os) 0 (wait_ret os) (Some status)])
    | None =>
        (Undefined IndeterminateRead, p,
         [Fork (fork_ret os); Waitpid (fork_ret os) 0 (wait_ret os) None])
    end.
Proof.
  intros Hpid Hpid0 Hfg.
  cbv [executeCommand bind get emit perror exit foreground_wait put printf
         fflush undefined].
  destruct (fork_ret os =? -1) eqn:E1; [lia|].
  destruct (fork_ret os =? 0) eqn:E2; [lia|].
  assert (Hb : negb (bg =? 0) && (foreground_only_mode p =? 0) = false).
  { destruct Hfg as [->|H]; [reflexivity|].
    apply Z.eqb_neq in H. rewrite H. apply andb_false_r. }
  rewrite Hb.
  destruct (written_status os) as [status|]; [|reflexivity].
  destruct (WIFSIGNALED status); reflexivity.
Qed.

Lemma written_status_some (os : os_replies) :
  wait_ret os <> -1 -> written_status os = Some (wait_status os).
Proof.
  intros H. unfold written_status. apply Z.eqb_neq in H. now rewrite H.
Qed.

Lemma written_status_none (os : os_replies) :
  wait_ret os = -1 -> written_status os = None.
Proof. intros H. unfold written_status. now rewrite H. Qed.


(** The same branch when [waitpid] returned the child. *)
Lemma executeCommand_waited (os : os_replies) (a : list cell)
    (inF outF : option string) (bg : Z) (p : process) :
  fork_ret os <> -1 ->
  fork_ret os <> 0 ->
  bg = 0 \/ foreground_only_mode p <> 0 ->
  wait_ret os <> -1 ->
  executeCommand os a inF outF bg p
  = (Returns tt,
     (if WIFSIGNALED (wait_status os)
      then set_status p (-1) (WTERMSIG (wait_status os))
      else set_status p (WEXITSTATUS (wait_status os)) (lastTerminalSignal p)),
     [Fork (fork_ret os);
      Waitpid (fork_ret os) 0 (wait_ret os) (Some (wait_status os))]).
Proof.
  intros Hpid Hpid0 Hfg Hw. rewrite executeCommand_foreground by assumption.
  now rewrite written_status_some.
Qed.

(** And when it failed. *)
Lemma executeCommand_wait_failed (os : os_replies) (a : list cell)
    (inF outF : option string) (bg : Z) (p : process) :
  fork_ret os <> -1 ->
  fork_ret os <> 0 ->
  bg = 0 \/ foreground_only_mode p <> 0 ->
  wait_ret os = -1 ->
  executeCommand os a inF outF bg p
  = (Undefined IndeterminateRead, p,
     [Fork (fork_ret os); Waitpid (fork_ret os) 0 (-1) None]).
Proof.
  intros Hpid Hpid0 Hfg Hw. rewrite executeCommand_foreground by assumption.
  now rewrite written_status_none, Hw.
Qed.

(** The parent reports the child and returns at once when a background
    launch was asked for and the mode is off. *)
Lemma executeCommand_background (os : os_replies) (a : list cell)
    (inF outF : option string) (bg : Z) (p : process) :
  0 < fork_ret os ->
  bg <> 0 ->
  foreground_only_mode p = 0 ->
  executeCommand os a inF outF bg p
  = (Returns tt, p,
     [Fork (fork_ret os);
      Printf ("Background process ID: " ++ decimal (fork_ret os) ++ nl);
      Fflush]).
Proof.
  intros Hpid Hbg Hmode.
  cbv [executeCommand bind get emit perror exit foreground_wait put printf fflush].
  destruct (fork_ret os =? -1) eqn:E1; [lia|].
  destruct (fork_ret os =? 0) eqn:E2; [lia|].
  apply Z.eqb_neq in Hbg. rewrite Hbg, Hmode. reflexivity.
Qed.


Lemma sigchld_loop_run (pending : list (positive * Z)) (more : bool)
    (p : process) :
  sigchld_loop pending more p
  = (Returns tt, p,
     (flat_map
        (fun c => [Waitpid (-1) WNOHANG (Z.pos (fst c)) (Some (snd c));
                   Printf (report (Z.pos (fst c)) (snd c))])
        pending
      ++ [Waitpid (-1) WNOHANG (if more then 0 else -1) None])%list).
Proof.
  induction pending as [|[child status] rest IH]; [reflexivity|].
  cbn [sigchld_loop flat_map fst snd].
  cbv [bind emit printf] in *. rewrite IH. reflexivity.
Qed.

Lemma handle_sigchld_run (pending : list (positive * Z)) (more : bool)
    (p : process) :
  handle_sigchld pending more p
  = (Returns tt, p,
     (flat_map
        (fun c => [Waitpid (-1) WNOHANG (Z.pos (fst c)) (Some (snd c));
                   Printf (report (Z.pos (fst c)) (snd c))])
        pending
      ++ [Waitpid (-1) WNOHANG (if more then 0 else -1) None; Fflush])%list).
Proof.
  unfold handle_sigchld, bind. rewrite sigchld_loop_run.
  cbv [fflush emit]. rewrite <- app_assoc. reflexivity.
Qed.

Lemma last_foreground_app (t1 t2 : list event) :
  forall seen,
    last_foreground (t1 ++ t2) seen
    = last_foreground t2 (last_foreground t1 seen).
Proof.
  induction t1 as [|e t1 IH]; intros seen; [reflexivity|].
  destruct e; cbn [app last_foreground]; try apply IH.
  destruct status; apply IH.
Qed.

Lemma last_foreground_other (e : event) (seen : option Z) :
  is_foreground_wait e = false -> last_foreground [e] seen = seen.
Proof.
  destruct e; cbn; try reflexivity.
  intros ->. now destruct status.
Qed.

Lemma executeCommand_child (os : os_replies) (a : list cell)
    (inF outF : option string) (bg : Z) (p : process) :
  fork_ret os = 0 ->
  executeCommand os a inF outF bg p
  = bind (emit (Fork 0)) (fun _ => child os a inF outF) p.
Proof.
  intros H. cbv [executeCommand bind get emit]. rewrite H.
  change (0 =? -1) with false. change (0 =? 0) with true. cbv iota beta.
  destruct (child os a inF outF p) as [[r q] t]. reflexivity.
Qed.

Lemma existsb_foreground_app (t1 t2 : list event) :
  existsb is_foreground_wait (t1 ++ t2)
  = (existsb is_foreground_wait t1 || existsb is_foreground_wait t2)%bool.
Proof. apply existsb_app. Qed.

End LauncherFacts.

Section Launcher.

Lemma valid_exited (k : Z) : valid_outcome (Exited k) = true -> 0 <= k <= 255.
Proof. cbn. rewrite andb_true_iff, !Z.leb_le. lia. Qed.

Lemma valid_killed (s : Z) (c : bool) :
  valid_outcome (Killed s c) = true -> 1 <= s <= 126.
Proof. cbn. rewrite andb_true_iff, !Z.leb_le. lia. Qed.

(** What [status] prints once a foreground wait delivered the status of
    a child that ended as [o]. *)
Lemma status_text_after (p : process) (o : outcome) :
  valid_outcome o = true ->
  status_text
    (if WIFSIGNALED (encode o)
     then set_status p (-1) (WTERMSIG (encode o))
     else set_status p (WEXITSTATUS (encode o)) (lastTerminalSignal p))
  = status_line o.
Proof.
  destruct o as [k|s c]; intros Hv.
  - apply valid_exited in Hv.
    destruct (decode_exited k Hv) as [-> ->].
    unfold status_text. cbn [lastExitStatus set_status].
    destruct (k =? -1) eqn:E; [lia|]. reflexivity.
  - apply valid_killed in Hv.
    destruct (decode_killed s c Hv) as [-> ->]. reflexivity.
Qed.

Lemma handle_sigchld_state (pending : list (positive * Z)) (more : bool)
    (p : process) :
  fst (handle_sigchld pending more p) = (Returns tt, p)
  /\ existsb is_foreground_wait (snd (handle_sigchld pending more p)) = false.
Proof.
  rewrite handle_sigchld_run. split; [reflexivity|].
  cbn [snd]. rewrite existsb_foreground_app.
  apply orb_false_iff. split; [|reflexivity].
  induction pending as [|[c st] rest IH]; [reflexivity|exact IH].
Qed.

(** What the child does after its two calls of [signal] sets no
    disposition. *)
Lemma child_rest_no_signal (os : os_replies) (a : list cell)
    (inF outF : option string) (q : process) :
  let rest := bind (redirect_input os inF)
                (fun _ => bind (redirect_output os outF)
                            (fun _ => execvp os a)) in
  snd (fst (rest q)) = q /\ existsb is_signal (snd (rest q)) = false.
Proof.
  cbv [redirect_input redirect_output execvp bind emit perror exit ret lift
         undefined].
  destruct inF as [fin|], outF as [fout|];
    repeat match goal with
      | |- context [if ?c then _ else _] => destruct c
      | |- context [match nth_error ?x ?n with _ => _ end] =>
          destruct (nth_error x n) as [[| |?]|]
      | |- context [match read_argv ?x with _ => _ end] =>
          destruct (read_argv x)
      end; cbn; auto.
Qed.

Lemma status_agrees_text (p : process) (seen : option Z) :
  status_agrees p seen ->
  status_text p
  = match seen with
    | None => "exit value: 0" ++ nl
    | Some status =>
        if WIFSIGNALED status
        then "terminated by signal " ++ decimal (WTERMSIG status) ++ nl
        else "exit value: " ++ decimal (WEXITSTATUS status) ++ nl
    end.
Proof.
  unfold status_agrees, status_text. destruct seen as [status|].
  - destruct (WIFSIGNALED status).
    + intros [-> ->]. reflexivity.
    + intros ->. pose proof (WEXITSTATUS_range status).
      destruct (WEXITSTATUS status =? -1) eqn:E; [lia|]. reflexivity.
  - intros ->. reflexivity.
Qed.

(** The relation "unless a blocking wait took place, the execution status
    is what it was" is carried by everything the shell does. *)
Ltac keeps_status lemma :=
  apply (lemma
           (fun p t p' =>
              existsb is_foreground_wait t = false ->
              lastExitStatus p' = lastExitStatus p
              /\ lastTerminalSignal p' = lastTerminalSignal p));
  [ auto
  | intros q t1 q1 t2 q2 H1 H2 H;
    rewrite existsb_foreground_app in H;
    apply orb_false_iff in H as [Ha Hb];
    destruct (H1 Ha), (H2 Hb); split; congruence
  | auto
  | auto
  | auto
  | intros q st pid r; cbn; discriminate
  | intros q pid r; cbn; discriminate ].

Lemma react_keeps_status (s : stimulus) (p : process) :
  existsb is_foreground_wait (snd (react s p)) = false ->
  lastExitStatus (snd (fst (react s p))) = lastExitStatus p
  /\ lastTerminalSignal (snd (fst (react s p))) = lastTerminalSignal p.
Proof. keeps_status carries_react. Qed.

Lemma run_keeps_status (l : list stimulus) (p : process) :
  existsb is_foreground_wait (snd (run l p)) = false ->
  status_text (snd (fst (run l p))) = status_text p.
Proof.
  intros H.
  assert (Hk : lastExitStatus (snd (fst (run l p))) = lastExitStatus p
               /\ lastTerminalSignal (snd (fst (run l p)))
                  = lastTerminalSignal p).
  { revert H. keeps_status carries_run. }
  destruct Hk as [H1 H2]. unfold status_text. now rewrite H1, H2.
Qed.

Lemma run_status_agrees (l : list stimulus) (p : process) (seen : option Z) :
  status_agrees p seen ->
  status_agrees (snd (fst (run l p))) (last_foreground (snd (run l p)) seen).
Proof.
  revert seen.
  apply (carries_run
           (fun p t p' =>
              forall seen, status_agrees p seen ->
                           status_agrees p' (last_foreground t seen))).
  - auto.
  - intros q t1 q1 t2 q2 H1 H2 seen H.
    rewrite last_foreground_app. auto.
  - intros q e He seen H. now rewrite last_foreground_other.
  - auto.
  - auto.
  - intros q status pid r seen _.
    change (last_foreground [Waitpid pid 0 r (Some status)] seen)
      with (Some status).
    unfold status_agrees. destruct (WIFSIGNALED status); auto.
  - auto.
Qed.

Lemma handleCommand_unfold (os : os_replies) (input : string) (p : process) :
  handleCommand os input p
  = match parseInput (self_pid p) (foreground_only_mode p) input locals with
    | Returns st => dispatch os st p
    | Exits c => (Exits c, p, [])
    | Replaced f a => (Replaced f a, p, [])
    | Signalled s => (Signalled s, p, [])
    | Undefined u => (Undefined u, p, [])
    end.
Proof.
  cbv [handleCommand bind get lift].
  destruct (parseInput _ _ input locals); try reflexivity.
  destruct (dispatch os a p) as [[r q] t]. reflexivity.
Qed.

Lemma end_args_inv (st st' : parsed) :
  end_args st = Returns st' ->
  inputFile st' = inputFile st /\ outputFile st' = outputFile st
  /\ background st' = background st.
Proof.
  unfold end_args. destruct (poke _ _ _); [|discriminate].
  intros [= <-]. repeat split.
Qed.

Lemma locals_room : List.length (args locals) = MAX_ARG_SIZE.
Proof. unfold locals. cbn [args]. apply repeat_length. Qed.

(** [parseInput] returns on every line that fits the input buffer and
    has fewer words than [args] has elements. *)
Lemma parseInput_returns (pid mode : Z) (input : string) :
  (strlen input < MAX_INPUT_SIZE)%nat ->
  (List.length (tokens input) < MAX_ARG_SIZE)%nat ->
  exists st1 st,
    scan pid mode (tokens input) locals = Returns st1
    /\ end_args st1 = Returns st
    /\ parseInput pid mode input locals = Returns st.
Proof.
  intros Hlen Htok.
  destruct (scan_returns pid mode (List.length (tokens input)) (tokens input)
              locals) as (st1 & Hs & Ha & Hi).
  - apply le_n.
  - rewrite locals_room. change (i locals) with O. lia.
  - eapply Forall_impl; [|apply (tokens_short (strlen input)), le_n].
    cbn beta. intros t Ht. lia.
  - assert (He : exists st, end_args st1 = Returns st).
    { unfold end_args.
      destruct (poke_in_bounds (args st1) (i st1) Null) as [a ->]; [|eauto].
      rewrite Ha, locals_room. change (i locals) with O in Hi. lia. }
    destruct He as [st He]. exists st1, st. repeat split; try assumption.
    rewrite parseInput_scan.
    change {| args := args locals; i := 0; inputFile := inputFile locals;
              outputFile := outputFile locals;
              background := background locals |} with locals.
    rewrite Hs. exact He.
Qed.





Lemma dollar_free_uint (d : Decimal.uint) :
  dollar_free (NilEmpty.string_of_uint d) = true.
Proof. induction d; simpl; auto. Qed.

Lemma dollar_free_decimal (z : Z) : dollar_free (decimal z) = true.
Proof.
  unfold decimal, NilZero.string_of_int, NilZero.string_of_uint.
  destruct (Z.to_int z) as [d|d]; destruct d;
    try reflexivity; try apply (dollar_free_uint (_ _));
    cbn [dollar_free]; try apply (dollar_free_uint (_ _)).
Qed.

Lemma dollar_free_take (n : nat) :
  forall s, dollar_free s = true -> dollar_free (take n s) = true.
Proof.
  induction n as [|n IH]; intros [|c s]; simpl; try reflexivity.
  rewrite !andb_true_iff. intros [Hc Hs]. auto.
Qed.

Lemma SS_PID_dollar_free (pid : Z) : dollar_free (snprintf_d 7 pid) = true.
Proof. apply dollar_free_take, dollar_free_decimal. Qed.

Lemma has_marker_nil : has_marker EmptyString = false.
Proof. reflexivity. Qed.

(** A text without dollar signs put before a marker-free text. *)
Lemma marker_free_after_digits (d y : string) :
  dollar_free d = true ->
  has_marker y = false ->
  has_marker (d ++ y) = false.
Proof.
  intros Hd Hy. induction d as [|c d IH]; [exact Hy|].
  cbn [dollar_free] in Hd. apply andb_true_iff in Hd as [Hc Hd].
  cbn [append]. rewrite has_marker_cons, prefix_marker_cons.
  apply negb_true_iff in Hc. rewrite Hc. cbn [andb orb]. auto.
Qed.

(** An admissible segment put before a marker-free text that does not
    start with a dollar sign. *)
Lemma marker_free_after_segment (seg x : string) :
  segment_ok seg = true ->
  String.prefix "$" x = false ->
  has_marker x = false ->
  has_marker (seg ++ x) = false.
Proof.
  intros Hok Hx Hm. induction seg as [|c seg IH]; [exact Hm|].
  apply segment_ok_cons in Hok as [Hp Hok].
  cbn [append]. rewrite has_marker_cons, IH, orb_false_r by assumption.
  rewrite prefix_marker_cons in *.
  destruct (Ascii.eqb c "$"); [|reflexivity]. cbn [andb] in *.
  destruct seg as [|e seg]; [discriminate Hp|].
  cbn [append String.prefix] in *.
  destruct (ascii_dec "$" e); [|reflexivity].
  now destruct (seg ++ "$")%string.
Qed.

Lemma prefix_dollar_digits (d y : string) :
  d <> EmptyString ->
  dollar_free d = true ->
  String.prefix "$" (d ++ y) = false.
Proof.
  destruct d as [|c d]; [congruence|]. intros _ Hd.
  cbn [dollar_free] in Hd. apply andb_true_iff in Hd as [Hc _].
  cbn [append String.prefix].
  destruct (ascii_dec "$" c) as [<-|]; [discriminate|reflexivity].
Qed.

(** No marker is left in the expansion of chunks. *)
Lemma expansion_marker_free (pidstr : string) (segs : list string) :
  pidstr <> EmptyString ->
  dollar_free pidstr = true ->
  forallb segment_ok segs = true ->
  has_marker (expansion pidstr segs) = false.
Proof.
  intros Hne Hd. induction segs as [|seg segs IH]; intros Hall;
    [reflexivity|].
  cbn [forallb] in Hall. apply andb_true_iff in Hall as [Hok Hall].
  cbn [expansion]. apply marker_free_after_segment; [assumption| |].
  - now apply prefix_dollar_digits.
  - apply marker_free_after_digits; auto.
Qed.

Lemma SS_PID_nonempty (pid : Z) : snprintf_d 7 pid <> EmptyString.
Proof.
  pose proof (SS_PID_length pid) as H.
  destruct (snprintf_d 7 pid); [|discriminate].
  unfold strlen in H. simpl in H. lia.
Qed.

(** With no input path parsed, nothing [dispatch] does opens a file for
    reading; likewise for the output path and writing. *)
Lemma dispatch_no_input_open (os : os_replies) (st : parsed) (p : process) :
  inputFile st = None ->
  forallb (fun e => negb (is_input_open e)) (snd (dispatch os st p)) = true.
Proof.
  intros H.
  apply (emits_dispatch (fun e => negb (is_input_open e))); try reflexivity.
  - intros [] He; try reflexivity; discriminate.
  - intros path Hp. congruence.
Qed.

Lemma dispatch_no_output_open (os : os_replies) (st : parsed) (p : process) :
  outputFile st = None ->
  forallb (fun e => negb (is_output_open e)) (snd (dispatch os st p)) = true.
Proof.
  intros H.
  apply (emits_dispatch (fun e => negb (is_output_open e))); try reflexivity.
  - intros [] He; try reflexivity; discriminate.
  - intros path Hp. congruence.
Qed.

End Launcher.

Section GrammarFacts.
Variables pid mode : Z.

Lemma plain_word_scan (w : string) :
  plain_word w = true ->
  is_word w = true /\ streq w "<" = false /\ streq w ">" = false
  /\ streq w "&" = false /\ strstr w marker = None.
Proof.
  unfold plain_word, is_redirect, has_marker.
  rewrite !andb_true_iff, !negb_true_iff, orb_false_iff.
  intros [[[Hw [H1 H2]] H3] H4]. repeat split; try assumption.
  destruct (strstr w marker); [discriminate|reflexivity].
Qed.

Lemma plain_word_last (ws : list string) :
  forallb plain_word ws = true ->
  is_redirect (last ws EmptyString) = false.
Proof.
  induction ws as [|w ws IH]; [reflexivity|].
  cbn [forallb]. rewrite andb_true_iff. intros [Hw Hall].
  destruct ws as [|w' ws]; [|now apply IH].
  cbn [last]. apply plain_word_scan in Hw as (_ & H1 & H2 & _).
  unfold is_redirect. now rewrite H1, H2.
Qed.

(** Plain words are stored one after the other, from [args[i]] on. *)
Lemma scan_plain_words (ws : list string) :
  forall st done free,
    args st = (map Ptr done ++ free)%list ->
    i st = List.length done ->
    (List.length ws <= List.length free)%nat ->
    forallb plain_word ws = true ->
    scan pid mode ws st
    = Returns {| args := (map Ptr (done ++ ws) ++ skipn (List.length ws) free)%list;
                 i := List.length (done ++ ws);
                 inputFile := inputFile st;
                 outputFile := outputFile st;
                 background := background st |}.
Proof.
  induction ws as [|w ws IH]; intros st done free Ha Hi Hroom Hall.
  - cbn [scan List.length skipn]. rewrite app_nil_r, <- Ha, <- Hi.
    now destruct st.
  - cbn [forallb] in Hall. apply andb_true_iff in Hall as [Hw Hall].
    apply plain_word_scan in Hw as (_ & H1 & H2 & H3 & H4).
    destruct free as [|c free]; [simpl in Hroom; lia|].
    cbn [scan]. rewrite H1, H2, H3, H4.
    unfold push_arg. rewrite Ha, Hi.
    replace (List.length done) with (List.length (map Ptr done))
      by apply length_map.
    rewrite poke_middle. cbn [and_then].
    rewrite (IH _ (done ++ [w])%list free); cbn [args i inputFile outputFile background].
    + rewrite <- !app_assoc. reflexivity.
    + rewrite map_app, <- app_assoc. reflexivity.
    + rewrite length_map, length_app. simpl. lia.
    + simpl in Hroom. lia.
    + assumption.
Qed.

(** Redirections and background markers leave [args] alone; the last
    path of each kind stays. *)
Lemma scan_items (its : list item) :
  forall st,
    scan pid mode (flat_map item_tokens its) st
    = Returns {| args := args st;
                 i := i st;
                 inputFile := items_input its (inputFile st);
                 outputFile := items_output its (outputFile st);
                 background := items_background mode its (background st) |}.
Proof.
  induction its as [|[path|path|] its IH]; intros st.
  - now destruct st.
  - cbn [flat_map item_tokens app]. 
    change (scan pid mode ("<" :: path :: flat_map item_tokens its) st)
      with (scan pid mode (flat_map item_tokens its)
              (set_inputFile st (Some path))).
    rewrite IH. reflexivity.
  - cbn [flat_map item_tokens app].
    change (scan pid mode (">" :: path :: flat_map item_tokens its) st)
      with (scan pid mode (flat_map item_tokens its)
              (set_outputFile st (Some path))).
    rewrite IH. reflexivity.
  - cbn [flat_map item_tokens app].
    change (scan pid mode ("&" :: flat_map item_tokens its) st)
      with (scan pid mode (flat_map item_tokens its)
              (if mode =? 0 then set_background st 1 else st)).
    rewrite IH. cbn [items_background items_input items_output].
    destruct (mode =? 0); reflexivity.
Qed.

Lemma read_argv_words (ws : list string) (rest : list cell) :
  read_argv (map Ptr ws ++ Null :: rest) = Returns ws.
Proof.
  induction ws as [|w ws IH]; [reflexivity|].
  cbn [map app read_argv]. now rewrite IH.
Qed.

Lemma item_tokens_words (its : list item) :
  forallb item_ok its = true ->
  forallb is_word (flat_map item_tokens its) = true.
Proof.
  induction its as [|[path|path|] its IH]; [intros _; reflexivity| | |];
    cbn [forallb item_ok flat_map item_tokens app]; intros H.
  - apply andb_true_iff in H as [Hp H].
    rewrite Hp, IH by assumption. reflexivity.
  - apply andb_true_iff in H as [Hp H].
    rewrite Hp, IH by assumption. reflexivity.
  - rewrite IH by assumption. reflexivity.
Qed.

Lemma plain_words_words (ws : list string) :
  forallb plain_word ws = true -> forallb is_word ws = true.
Proof.
  induction ws as [|w ws IH]; [reflexivity|].
  cbn [forallb]. intros H. apply andb_true_iff in H as [Hw Hall].
  apply plain_word_scan in Hw as [Hw _]. now rewrite Hw, IH.
Qed.

Lemma tokens_grammar_line (ws : list string) (its : list item) :
  forallb plain_word ws = true ->
  forallb item_ok its = true ->
  tokens (grammar_line ws its) = (ws ++ flat_map item_tokens its)%list.
Proof.
  intros Hws Hits. unfold grammar_line. apply tokens_of_words.
  rewrite forallb_app, plain_words_words, item_tokens_words by assumption.
  reflexivity.
Qed.

Lemma skipn_repeat_same {A : Type} (x : A) (n : nat) :
  forall m, skipn n (repeat x m) = repeat x (m - n).
Proof.
  induction n as [|n IH]; intros [|m]; cbn; try reflexivity. apply IH.
Qed.

(** What [parseInput] makes of a line written after the grammar. *)
Lemma parseInput_grammar (ws : list string) (its : list item) :
  forallb plain_word ws = true ->
  forallb item_ok its = true ->
  (List.length ws < MAX_ARG_SIZE)%nat ->
  parseInput pid mode (grammar_line ws its) locals
  = Returns {| args := (map Ptr ws ++ Null
                          :: skipn (S (List.length ws)) (args locals))%list;
               i := List.length ws;
               inputFile := items_input its None;
               outputFile := items_output its None;
               background := items_background mode its 0 |}.
Proof.
  intros Hws Hits Hlen.
  rewrite parseInput_scan, tokens_grammar_line by assumption.
  rewrite (scan_app pid mode (List.length ws)); [|apply le_n|now apply plain_word_last].
  change {| args := args locals; i := 0; inputFile := inputFile locals;
            outputFile := outputFile locals;
            background := background locals |} with locals.
  rewrite (scan_plain_words ws locals [] (args locals));
    [|reflexivity|reflexivity| |assumption].
  2:{ pose proof locals_room. lia. }
  cbn [and_then app map]. rewrite scan_items.
  cbn [args i inputFile outputFile background and_then].
  unfold end_args. cbn [args i inputFile outputFile background].
  assert (Hsplit : skipn (List.length ws) (args locals)
                   = Indeterminate :: skipn (S (List.length ws)) (args locals)).
  { unfold locals, MAX_ARG_SIZE in *. cbn [args].
    rewrite !skipn_repeat_same.
    replace (512 - List.length ws)%nat with (S (512 - S (List.length ws)))
      by lia.
    reflexivity. }
  rewrite Hsplit.
  pose proof (poke_middle (map Ptr ws) Indeterminate Null
                (skipn (S (List.length ws)) (args locals))) as Hp.
  rewrite length_map in Hp. rewrite Hp. reflexivity.
Qed.

End GrammarFacts.

Section WordFacts.

Lemma cut_token_space_free (s : string) :
  space_free (fst (cut_token s)) = true.
Proof.
  induction s as [|c s IH]; [reflexivity|].
  cbn [cut_token]. destruct (is_delim c) eqn:Hc; [reflexivity|].
  destruct (cut_token s) as [t rest]. cbn [fst space_free] in *.
  now rewrite Hc, IH.
Qed.

(** What [strtok] hands out is a word. *)
Lemma strtok_is_word (saved t rest : string) :
  strtok saved = (Some t, rest) -> is_word t = true.
Proof.
  intros H. pose proof (strtok_some _ _ _ H) as [Hlen _].
  unfold strtok in H.
  destruct (skip_delims saved) as [|c s]; [discriminate|].
  pose proof (cut_token_space_free (String c s)) as Hs.
  destruct (cut_token (String c s)) as [t' rest']. injection H as <- <-.
  unfold is_word. cbn [fst] in Hs. rewrite Hs, andb_true_r.
  destruct t'; [unfold strlen in Hlen; simpl in Hlen; lia|reflexivity].
Qed.

Lemma tokens_are_words (n : nat) :
  forall line, (strlen line <= n)%nat -> forallb is_word (tokens line) = true.
Proof.
  induction n as [|n IH]; intros line Hn; rewrite tokens_unfold;
    destruct (strtok line) as [[t|] rest] eqn:E; try reflexivity;
    pose proof (strtok_some _ _ _ E) as [Ht Hr]; try lia.
  cbn [forallb]. rewrite (strtok_is_word _ _ _ E), IH by lia. reflexivity.
Qed.

End WordFacts.

Section Stored.

Lemma poke_at_end {A : Type} (pre : list A) :
  forall free x a,
    poke (pre ++ free)%list (List.length pre) x = Some a ->
    exists c f, free = c :: f /\ a = (pre ++ x :: f)%list.
Proof.
  induction pre as [|y pre IH]; intros free x a.
  - destruct free as [|c f]; cbn; [discriminate|].
    intros [= <-]. eauto.
  - cbn. destruct (poke (pre ++ free)%list (List.length pre) x) eqn:E;
      [|discriminate].
    intros [= <-]. destruct (IH _ _ _ E) as (c & f & -> & ->). eauto.
Qed.

Lemma push_arg_stored (st st' : parsed) (s : string) (done : list string)
    (free : list cell) :
  args st = (map Ptr done ++ free)%list ->
  i st = List.length done ->
  push_arg st s = Returns st' ->
  exists free',
    args st' = (map Ptr (done ++ [s]) ++ free')%list
    /\ i st' = List.length (done ++ [s]).
Proof.
  intros Ha Hi. unfold push_arg. rewrite Ha, Hi.
  replace (List.length done) with (List.length (map Ptr done))
    by apply length_map.
  destruct (poke _ _ _) as [a|] eqn:E; [|discriminate].
  destruct (poke_at_end _ _ _ _ E) as (c & f & -> & ->).
  intros [= <-]. exists f. cbn [args i].
  rewrite map_app, <- app_assoc, length_app, length_map. cbn.
  split; [reflexivity|lia].
Qed.

(** The cells below [i] hold strings, throughout the loop. *)
Lemma scan_stored (pid mode : Z) (n : nat) :
  forall toks st st' done free,
    (List.length toks <= n)%nat ->
    args st = (map Ptr done ++ free)%list ->
    i st = List.length done ->
    scan pid mode toks st = Returns st' ->
    exists more free',
      args st' = (map Ptr (done ++ more) ++ free')%list
      /\ i st' = List.length (done ++ more).
Proof.
  induction n as [|n IH]; intros toks st st' done free Hn Ha Hi.
  - destruct toks; [|simpl in Hn; lia]. intros [= <-].
    exists [], free. now rewrite app_nil_r.
  - destruct toks as [|tok rest].
    { intros [= <-]. exists [], free. now rewrite app_nil_r. }
    cbn [List.length] in Hn. cbn [scan].
    assert (Hpush : forall e st1,
               push_arg st e = Returns st1 ->
               scan pid mode rest st1 = Returns st' ->
               exists more free',
                 args st' = (map Ptr (done ++ more) ++ free')%list
                 /\ i st' = List.length (done ++ more)).
    { intros e st1 Hp Hs.
      destruct (push_arg_stored _ _ _ _ _ Ha Hi Hp) as (f1 & Ha1 & Hi1).
      destruct (IH rest st1 st' _ f1 ltac:(lia) Ha1 Hi1 Hs)
        as (more & free' & Ha' & Hi').
      exists (e :: more), free'.
      rewrite <- app_assoc in Ha', Hi'. now split. }
    destruct (streq tok "<").
    { destruct rest as [|f rest'].
      - intros [= <-]. exists [], free. now rewrite app_nil_r.
      - apply IH with (free := free); [simpl in Hn; lia|exact Ha|exact Hi]. }
    destruct (streq tok ">").
    { destruct rest as [|f rest'].
      - intros [= <-]. exists [], free. now rewrite app_nil_r.
      - apply IH with (free := free); [simpl in Hn; lia|exact Ha|exact Hi]. }
    destruct (streq tok "&").
    { apply IH with (free := free); [lia| |];
        destruct (mode =? 0); assumption. }
    destruct (strstr tok marker); intros H.
    + apply and_then_returns in H as (e & _ & H).
      apply and_then_returns in H as (st1 & Hp & H). eauto.
    + apply and_then_returns in H as (st1 & Hp & H). eauto.
Qed.

End Stored.

Section Dispatched.

Lemma streq_eq (a b : string) : streq a b = true -> a = b.
Proof. apply String.eqb_eq. Qed.

(** The operator that ends a line with no word left for it leaves its
    path null, whatever came before. *)
Lemma scan_dangles (pid mode : Z) (n : nat) :
  forall toks st st',
    (List.length toks <= n)%nat ->
    scan pid mode toks st = Returns st' ->
    (dangles "<" toks = true -> inputFile st' = None)
    /\ (dangles ">" toks = true -> outputFile st' = None).
Proof.
  induction n as [|n IH]; intros toks st st' Hn.
  - destruct toks; [|simpl in Hn; lia]. intros _. split; discriminate.
  - destruct toks as [|tok rest]; [intros _; split; discriminate|].
    cbn [List.length] in Hn. cbn [scan dangles]. unfold is_redirect.
    destruct (streq tok "<") eqn:E1.
    { apply streq_eq in E1. subst tok. cbn [orb].
      destruct rest as [|f rest'].
      - intros [= <-]. split; [reflexivity|discriminate].
      - apply IH. simpl in Hn. lia. }
    destruct (streq tok ">") eqn:E2.
    { apply streq_eq in E2. subst tok. cbn [orb].
      destruct rest as [|f rest'].
      - intros [= <-]. split; [discriminate|reflexivity].
      - apply IH. simpl in Hn. lia. }
    cbn [orb].
    destruct (streq tok "&"); [apply IH; lia|].
    destruct (strstr tok marker); intros H.
    + apply and_then_returns in H as (e & _ & H).
      apply and_then_returns in H as (st1 & _ & H).
      apply (IH rest st1 st'); [lia|exact H].
    + apply and_then_returns in H as (st1 & _ & H).
      apply (IH rest st1 st'); [lia|exact H].
Qed.

(** After [parseInput], the cells of [args] below the null pointer hold
    strings. *)
Lemma parseInput_stored (pid mode : Z) (input : string) :
  (strlen input < MAX_INPUT_SIZE)%nat ->
  (List.length (tokens input) < MAX_ARG_SIZE)%nat ->
  exists st1 st done free,
    scan pid mode (tokens input) locals = Returns st1
    /\ parseInput pid mode input locals = Returns st
    /\ inputFile st = inputFile st1
    /\ outputFile st = outputFile st1
    /\ background st = background st1
    /\ args st = (map Ptr done ++ Null :: free)%list.
Proof.
  intros Hlen Htok.
  destruct (parseInput_returns pid mode input Hlen Htok)
    as (st1 & st & Hs & He & Hparse).
  destruct (scan_stored pid mode (List.length (tokens input)) (tokens input)
              locals st1 [] (args locals) (le_n _) eq_refl eq_refl Hs)
    as (more & f1 & Ha1 & Hi1).
  destruct (end_args_inv _ _ He) as (Hin & Hout & Hbg).
  unfold end_args in He. rewrite Ha1, Hi1 in He.
  replace (List.length ([] ++ more))
    with (List.length (map Ptr ([] ++ more))) in He by apply length_map.
  destruct (poke _ _ _) as [a|] eqn:E; [|discriminate].
  destruct (poke_at_end _ _ _ _ E) as (c & f & -> & ->).
  injection He as <-.
  eexists st1, _, more, f.
  split; [exact Hs|]. split; [exact Hparse|]. repeat split.
Qed.

(** The first word of a line, when it is no operator, is what
    [handleCommand] finds in [args[0]]: the word itself when it holds no
    marker. *)
Lemma parseInput_first_word (pid mode : Z) (input t : string)
    (rest : list string) :
  (strlen input < MAX_INPUT_SIZE)%nat ->
  (List.length (tokens input) < MAX_ARG_SIZE)%nat ->
  tokens input = t :: rest ->
  is_redirect t = false ->
  streq t "&" = false ->
  exists st e more free,
    parseInput pid mode input locals = Returns st
    /\ args st = (map Ptr (e :: more) ++ Null :: free)%list
    /\ (has_marker t = false -> e = t).
Proof.
  intros Hlen Htok Ht Hr Hamp.
  destruct (parseInput_returns pid mode input Hlen Htok)
    as (st1 & st & Hs & He & Hparse).
  rewrite Ht in Hs. cbn [scan] in Hs.
  unfold is_redirect in Hr. apply orb_false_iff in Hr as [Hr1 Hr2].
  rewrite Hr1, Hr2, Hamp in Hs.
  assert (Hfirst : exists e st0,
             push_arg locals e = Returns st0
             /\ scan pid mode rest st0 = Returns st1
             /\ (has_marker t = false -> e = t)).
  { unfold has_marker. destruct (strstr t marker).
    - apply and_then_returns in Hs as (e & _ & Hs).
      apply and_then_returns in Hs as (st0 & Hp & Hs).
      exists e, st0. repeat split; try assumption. discriminate.
    - apply and_then_returns in Hs as (st0 & Hp & Hs).
      exists t, st0. repeat split; assumption. }
  destruct Hfirst as (e & st0 & Hp & Hrest & Hsame).
  destruct (push_arg_stored locals st0 e [] (args locals) eq_refl eq_refl Hp)
    as (f0 & Ha0 & Hi0).
  destruct (scan_stored _ _ (List.length rest) rest st0 st1 _ f0 (le_n _)
              Ha0 Hi0 Hrest) as (more & f1 & Ha1 & Hi1).
  unfold end_args in He. rewrite Ha1, Hi1 in He.
  replace (List.length (([] ++ [e]) ++ more))
    with (List.length (map Ptr (([] ++ [e]) ++ more))) in He
    by apply length_map.
  destruct (poke _ _ _) as [a|] eqn:E; [|discriminate].
  destruct (poke_at_end _ _ _ _ E) as (c & f & -> & ->).
  injection He as <-.
  eexists _, e, more, f.
  split; [exact Hparse|]. split; [reflexivity|exact Hsame].
Qed.

(** What the child does when its files open and [execvp] succeeds. *)
Lemma executeCommand_child_run (os : os_replies) (a : list cell)
    (inF outF : option string) (bg : Z) (p : process) (file : string)
    (argv : list string) :
  fork_ret os = 0 ->
  nth_error a 0 = Some (Ptr file) ->
  read_argv a = Returns argv ->
  (inF <> None -> open_in_ret os <> -1) ->
  (outF <> None -> open_out_ret os <> -1) ->
  execvp_ok os = true ->
  executeCommand os a inF outF bg p
  = (Replaced file argv,
     set_disposition (set_disposition p SIGTSTP SIG_IGN) SIGINT SIG_DFL,
     ([Fork 0; Signal SIGTSTP SIG_IGN; Signal SIGINT SIG_DFL]
        ++ redirections os inF outF ++ [Execvp file argv])%list).
Proof.
  intros Hfork H0 Hargv Hin Hout Hexec.
  rewrite executeCommand_child by assumption.
  cbv [child redirect_input redirect_output execvp bind emit perror exit ret
         lift undefined signal redirections].
  rewrite H0, Hargv, Hexec.
  destruct inF as [fin|], outF as [fout|];
    try (assert (Hi : (open_in_ret os =? -1) = false)
          by (apply Z.eqb_neq, Hin; discriminate); rewrite Hi);
    try (assert (Ho : (open_out_ret os =? -1) = false)
          by (apply Z.eqb_neq, Hout; discriminate); rewrite Ho);
    reflexivity.
Qed.

Lemma not_builtin (verb : string) :
  is_builtin verb = false ->
  streq verb "exit" = false /\ streq verb "cd" = false
  /\ streq verb "status" = false.
Proof.
  unfold is_builtin. intros H. apply orb_false_iff in H as [H H3].
  apply orb_false_iff in H as [H1 H2]. auto.
Qed.


End Dispatched.


(* ================================================================== *)
(** * The claims *)
(* ================================================================== *)

Section Claims.

(** C1, what the code does: on a token read as chunks and a tail, with at
    least one marker, [expandShellID] returns the expansion of the chunks
    only.  No marker is left in it, but its length is the claimed one less
    the length of the tail, and it differs from the claimed expansion as
    soon as the tail is not empty. *)
Theorem C1_expandShellID_leaves_out_the_tail :
  forall pid segs tail,
    forallb segment_ok segs = true ->
    has_marker tail = false ->
    segs <> [] ->
    (strlen (chunks segs ++ tail) < MAX_INPUT_SIZE)%nat ->
    no_nul (chunks segs ++ tail) = true ->
    let token := chunks segs ++ tail in
    let SS_PID := snprintf_d 7 pid in
    let out := expansion SS_PID segs in
    expandShellID pid token = Returns out
    /\ has_marker out = false
    /\ Z.of_nat (strlen out)
       = Z.of_nat (strlen token)
         + Z.of_nat (List.length segs) * (Z.of_nat (strlen SS_PID) - 2)
         - Z.of_nat (strlen tail)
    /\ claimed_expansion SS_PID segs tail = out ++ tail
    /\ (tail <> EmptyString -> out <> claimed_expansion SS_PID segs tail).
Proof.
  intros pid segs tail Hall Htail Hne Hlen Hnul token SS_PID out.
  split; [now apply expandShellID_chunks|]. split; [|split; [|split]].
  - apply expansion_marker_free; try assumption.
    + apply SS_PID_nonempty.
    + apply SS_PID_dollar_free.
  - subst out token. pose proof (strlen_expansion SS_PID segs) as He.
    rewrite (strlen_app (chunks segs)).
    apply (f_equal Z.of_nat) in He.
    rewrite !Nat2Z.inj_add, !Nat2Z.inj_mul in *. lia.
  - reflexivity.
  - intros Ht Heq. subst out. unfold claimed_expansion in Heq.
    apply (f_equal strlen) in Heq. rewrite strlen_app in Heq.
    destruct tail as [|c tail]; [congruence|].
    assert (1 <= strlen (String c tail))%nat by (unfold strlen; simpl; lia).
    lia.
Qed.

(** C1, at the failing input: with the process identifier 1234 the token
    [foo$$bar] comes back as [foo1234], seven characters instead of the
    ten of [foo1234bar], the expansion the claim describes. *)
Lemma C1_witness :
  expandShellID 1234 "foo$$bar" = Returns "foo1234"
  /\ claimed_expansion "1234" ["foo"] "bar" = "foo1234bar"
  /\ "foo1234" <> claimed_expansion "1234" ["foo"] "bar".
Proof.
  destruct (C1_expandShellID_leaves_out_the_tail 1234 ["foo"] "bar")
    as (Hout & _ & _ & Hclaimed & Hdiffers).
  - reflexivity.
  - reflexivity.
  - discriminate.
  - vm_compute. lia.
  - reflexivity.
  - split; [exact Hout|]. split; [exact Hclaimed|].
    apply Hdiffers. discriminate.
Defined.

(** C2, as the code has it: when [fork] fails the failure is reported,
    nothing is run, and the shell itself ends with exit status 1. *)
Theorem C2_fork_failure_ends_the_shell :
  forall os a inF outF bg p,
    fork_ret os = -1 ->
    executeCommand os a inF outF bg p
    = (Exits 1, p, [Fork (-1); Perror "fork failed"]).
Proof.
  intros os a inF outF bg p Hfork.
  cbv [executeCommand bind get emit perror exit].
  rewrite Hfork. reflexivity.
Qed.

(** C2, at a concrete input: [ls] with a failing [fork]. *)
Lemma C2_witness :
  executeCommand (with_fork os_example (-1)) [Ptr "ls"; Null] None None 0
    (initial 1234)
  = (Exits 1, initial 1234, [Fork (-1); Perror "fork failed"]).
Proof.
  apply (C2_fork_failure_ends_the_shell (with_fork os_example (-1))).
  reflexivity.
Defined.

(** C2, counterexample: on the line [ls] with a failing [fork], the
    shell does not go on to its next turn but exits, with status 1. *)
Lemma C2_counterexample :
  let r := fst (fst (handleCommand (with_fork os_example (-1)) "ls"
                       (initial 1234))) in
  r = Exits 1 /\ r <> Returns tt.
Proof. split; [reflexivity|discriminate]. Qed.


(** C3, at the failing inputs: the line [&] leaves [args[0]] null and
    [handleCommand] hands it to [strcmp]; a line of 512 words makes
    [parseInput] store past the end of [args]. *)
Theorem C3_parse_and_dispatch_faults :
  (forall os pid,
      handleCommand os "&" (initial pid)
      = (Undefined NullPointer, initial pid, []))
  /\ (forall os pid,
         handleCommand os "< in" (initial pid)
         = (Undefined NullPointer, initial pid, []))
  /\ (strlen (words 511) < MAX_INPUT_SIZE)%nat
  /\ List.length (tokens (words 511)) = MAX_ARG_SIZE
  /\ (forall pid mode,
         parseInput pid mode (words 511) locals = Undefined OutOfBounds).
Proof.
  split; [reflexivity|]. split; [reflexivity|].
  split; [vm_compute; lia|]. split; [vm_compute; reflexivity|].
  intros pid mode. rewrite parseInput_scan.
  vm_compute. reflexivity.
Qed.



(** C5, what the code does.  As long as no blocking wait delivered a
    status -- no foreground command has run -- [status] prints
    "exit value: 0".  When the [waitpid] of the launcher returns the
    foreground child, which ended as [o], then from there on, whatever the
    shell does without another blocking wait, [status] prints the exit code
    of [o], or the signal that ended it.  But when that [waitpid] fails --
    the reaper, run on the SIGCHLD of this child before the call, has taken
    it -- the launcher reads a [status] that was never written: how the
    child ended is recorded nowhere, and what [status] prints next is not
    determined by it. *)
Theorem C5_status_is_lost_when_the_wait_fails :
  (forall l pid,
      let p := snd (fst (run l (initial pid))) in
      last_foreground (snd (run l (initial pid))) None = None ->
      handleStatus p
      = (Returns tt, p, [Printf ("exit value: 0" ++ nl); Fflush]))
  /\ (forall os a inF outF bg p o l,
         0 < fork_ret os ->
         bg = 0 \/ foreground_only_mode p <> 0 ->
         valid_outcome o = true ->
         wait_ret os <> -1 ->
         wait_status os = encode o ->
         let launched := executeCommand os a inF outF bg p in
         let later := run l (snd (fst launched)) in
         fst (fst launched) = Returns tt
         /\ snd launched
            = [Fork (fork_ret os);
               Waitpid (fork_ret os) 0 (wait_ret os) (Some (encode o))]
         /\ (existsb is_foreground_wait (snd later) = false ->
             handleStatus (snd (fst later))
             = (Returns tt, snd (fst later),
                [Printf (status_line o); Fflush])))
  /\ (forall os input p st verb,
         parseInput (self_pid p) (foreground_only_mode p) input locals
         = Returns st ->
         nth_error (args st) 0 = Some (Ptr verb) ->
         is_builtin verb = false ->
         0 < fork_ret os ->
         background st = 0 \/ foreground_only_mode p <> 0 ->
         wait_ret os = -1 ->
         handleCommand os input p
         = (Undefined IndeterminateRead, p,
            [Fork (fork_ret os); Waitpid (fork_ret os) 0 (-1) None])).
Proof.
  split; [|split].
  - intros l pid p Hnone.
    pose proof (run_status_agrees l (initial pid) None eq_refl) as H.
    rewrite Hnone in H. apply status_agrees_text in H.
    fold p in H. now rewrite handleStatus_run, H.
  - intros os a inF outF bg p o l Hpid Hfg Hv Hret Hw launched later.
    subst later launched.
    rewrite executeCommand_waited by (assumption || lia).
    rewrite Hw. cbn [fst snd]. repeat split.
    intros Hl. rewrite handleStatus_run, run_keeps_status by assumption.
    now rewrite status_text_after.
  - intros os input p st verb Hparse Hverb Hb Hpid Hfg Hret.
    rewrite handleCommand_unfold, Hparse. unfold dispatch. rewrite Hverb.
    destruct (not_builtin verb Hb) as (-> & -> & ->).
    apply executeCommand_wait_failed; auto; lia.
Qed.

(** C5, at the failing input: the line [false], whose child ends at once
    and is reaped by [handle_sigchld] before the launcher calls [waitpid],
    which then returns -1.  The exit code 1 of the child is not recorded:
    the launcher reads the [status] it never set. *)
Lemma C5_witness :
  handleCommand (with_wait_ret os_example (-1)) "false" (initial 1234)
  = (Undefined IndeterminateRead, initial 1234,
     [Fork 4321; Waitpid 4321 0 (-1) None]).
Proof.
  eapply (proj2 (proj2 C5_status_is_lost_when_the_wait_fails)
            (with_wait_ret os_example (-1)) "false" (initial 1234) _ "false").
  - vm_compute. reflexivity.
  - reflexivity.
  - reflexivity.
  - reflexivity.
  - left. reflexivity.
  - reflexivity.
Defined.

(** C6: the reaper leaves the process state as it is, so [status] prints
    the same before and after it; and whatever the shell does, the
    execution status only changes when a blocking wait took place. *)
Theorem C6_status_written_by_foreground_wait_only :
  (forall pending more p,
      fst (handle_sigchld pending more p) = (Returns tt, p)
      /\ existsb is_foreground_wait (snd (handle_sigchld pending more p)) = false)
  /\ (forall s p,
         existsb is_foreground_wait (snd (react s p)) = false ->
         lastExitStatus (snd (fst (react s p))) = lastExitStatus p
         /\ lastTerminalSignal (snd (fst (react s p))) = lastTerminalSignal p).
Proof.
  split; [apply handle_sigchld_state|apply react_keeps_status].
Qed.

(** C6, at a concrete input: two background completions reaped while the
    status of the last foreground command is "exit value 7". *)
Lemma C6_witness :
  let s := Got_SIGCHLD [(77%positive, 9); (78%positive, 256)] true in
  let p := set_status (initial 1234) 7 0 in
  lastExitStatus (snd (fst (react s p))) = 7
  /\ lastTerminalSignal (snd (fst (react s p))) = 0.
Proof.
  intros s p.
  apply (proj2 C6_status_written_by_foreground_wait_only s p).
  reflexivity.
Defined.

(** C7, what the code does.  On a line that fits the input buffer and
    [args] and whose last word is the operator [<] with no word left for
    it, [parseInput] returns with the input path null; nothing that is then
    done opens a file for reading; and the command of the line, run in the
    child, goes on to its output redirection, if any, and to [execvp] with
    the words of the line.  Likewise for [>] and the output path.  An
    operator is a [<] or [>] the loop reads as such: the word after an
    operator is its path, whatever that word is.  But when the line holds
    no command word, as the line [<] does, [args[0]] is the null pointer
    and [handleCommand] hands it to [strcmp]: no command is executed. *)
Theorem C7_dangling_redirection_needs_a_command :
  forall os p input,
    (strlen input < MAX_INPUT_SIZE)%nat ->
    (List.length (tokens input) < MAX_ARG_SIZE)%nat ->
    (dangles "<" (tokens input) = true ->
     exists st,
       parseInput (self_pid p) (foreground_only_mode p) input locals
       = Returns st
       /\ inputFile st = None
       /\ forallb (fun e => negb (is_input_open e))
            (snd (handleCommand os input p)) = true
       /\ forall verb,
           nth_error (args st) 0 = Some (Ptr verb) ->
           is_builtin verb = false ->
           fork_ret os = 0 ->
           (outputFile st <> None -> open_out_ret os <> -1) ->
           execvp_ok os = true ->
           exists more,
             read_argv (args st) = Returns (verb :: more)
             /\ handleCommand os input p
                = (Replaced verb (verb :: more),
                   set_disposition (set_disposition p SIGTSTP SIG_IGN)
                     SIGINT SIG_DFL,
                   ([Fork 0; Signal SIGTSTP SIG_IGN; Signal SIGINT SIG_DFL]
                      ++ redirections os None (outputFile st)
                      ++ [Execvp verb (verb :: more)])%list))
    /\ (dangles ">" (tokens input) = true ->
        exists st,
          parseInput (self_pid p) (foreground_only_mode p) input locals
          = Returns st
          /\ outputFile st = None
          /\ forallb (fun e => negb (is_output_open e))
               (snd (handleCommand os input p)) = true
          /\ forall verb,
              nth_error (args st) 0 = Some (Ptr verb) ->
              is_builtin verb = false ->
              fork_ret os = 0 ->
              (inputFile st <> None -> open_in_ret os <> -1) ->
              execvp_ok os = true ->
              exists more,
                read_argv (args st) = Returns (verb :: more)
                /\ handleCommand os input p
                   = (Replaced verb (verb :: more),
                      set_disposition (set_disposition p SIGTSTP SIG_IGN)
                        SIGINT SIG_DFL,
                      ([Fork 0; Signal SIGTSTP SIG_IGN;
                        Signal SIGINT SIG_DFL]
                         ++ redirections os (inputFile st) None
                         ++ [Execvp verb (verb :: more)])%list))
    /\ (forall st,
           parseInput (self_pid p) (foreground_only_mode p) input locals
           = Returns st ->
           nth_error (args st) 0 = Some Null ->
           handleCommand os input p = (Undefined NullPointer, p, [])).
Proof.
  intros os p input Hlen Htok.
  destruct (parseInput_stored (self_pid p) (foreground_only_mode p) input
              Hlen Htok)
    as (st1 & st & done & free & Hs & Hparse & Hin & Hout & _ & Ha).
  destruct (scan_dangles _ _ _ _ _ _ (le_n _) Hs) as [Din Dout].
  assert (Hrun : forall verb inF outF,
             nth_error (args st) 0 = Some (Ptr verb) ->
             is_builtin verb = false ->
             fork_ret os = 0 ->
             inputFile st = inF ->
             outputFile st = outF ->
             (inF <> None -> open_in_ret os <> -1) ->
             (outF <> None -> open_out_ret os <> -1) ->
             execvp_ok os = true ->
             exists more,
               read_argv (args st) = Returns (verb :: more)
               /\ handleCommand os input p
                  = (Replaced verb (verb :: more),
                     set_disposition (set_disposition p SIGTSTP SIG_IGN)
                       SIGINT SIG_DFL,
                     ([Fork 0; Signal SIGTSTP SIG_IGN; Signal SIGINT SIG_DFL]
                        ++ redirections os inF outF
                        ++ [Execvp verb (verb :: more)])%list)).
  { intros verb inF outF Hverb Hb Hfork HinF HoutF Hi Ho Hexec.
    assert (Hdone : exists more, done = verb :: more).
    { rewrite Ha in Hverb. destruct done as [|v more]; [discriminate|].
      injection Hverb as ->. eauto. }
    destruct Hdone as [more ->]. exists more.
    assert (Hargv : read_argv (args st) = Returns (verb :: more))
      by (rewrite Ha; apply read_argv_words).
    split; [exact Hargv|].
    rewrite handleCommand_unfold, Hparse. unfold dispatch. rewrite Hverb.
    destruct (not_builtin verb Hb) as (-> & -> & ->).
    rewrite HinF, HoutF.
    now apply executeCommand_child_run. }
  split; [|split]; [intros Hd; exists st|intros Hd; exists st|].
  - assert (H : inputFile st = None) by (rewrite Hin; auto).
    split; [exact Hparse|]. split; [exact H|]. split.
    + rewrite handleCommand_unfold, Hparse. now apply dispatch_no_input_open.
    + intros verb Hverb Hb Hfork Ho Hexec.
      apply Hrun; auto; congruence.
  - assert (H : outputFile st = None) by (rewrite Hout; auto).
    split; [exact Hparse|]. split; [exact H|]. split.
    + rewrite handleCommand_unfold, Hparse. now apply dispatch_no_output_open.
    + intros verb Hverb Hb Hfork Hi Hexec.
      apply Hrun; auto; congruence.
  - intros st' Hparse' Hnull.
    rewrite handleCommand_unfold, Hparse'. unfold dispatch.
    now rewrite Hnull.
Qed.

(** C7, at the failing input: on the line [<] the input path is left
    null, but there is no command, and [handleCommand] calls [strcmp] on
    the null [args[0]].  Beside it, two lines the code handles as claimed:
    [cat notes <], and [cat < < <], whose second [<] is the path of the
    first and whose third finds no word. *)
Lemma C7_witness :
  ((exists st,
       parseInput 1234 0 "<" locals = Returns st /\ inputFile st = None)
   /\ handleCommand os_example "<" (initial 1234)
      = (Undefined NullPointer, initial 1234, []))
  /\ (exists st,
         parseInput 1234 0 "cat notes <" locals = Returns st
         /\ inputFile st = None
         /\ handleCommand (with_fork os_example 0) "cat notes <"
              (initial 1234)
            = (Replaced "cat" ["cat"; "notes"],
               set_disposition
                 (set_disposition (initial 1234) SIGTSTP SIG_IGN)
                 SIGINT SIG_DFL,
               [Fork 0; Signal SIGTSTP SIG_IGN; Signal SIGINT SIG_DFL;
                Execvp "cat" ["cat"; "notes"]]))
  /\ (exists st,
         parseInput 1234 0 "cat < < <" locals = Returns st
         /\ inputFile st = None
         /\ forallb (fun e => negb (is_input_open e))
              (snd (handleCommand (with_fork os_example 0) "cat < < <"
                      (initial 1234))) = true).
Proof.
  split; [|split].
  - destruct (C7_dangling_redirection_needs_a_command os_example
                (initial 1234) "<") as (Hin & _ & Hnull).
    + vm_compute. lia.
    + vm_compute. lia.
    + destruct Hin as (st & Hparse & Hnone & _); [reflexivity|].
      split; [exists st; auto|].
      apply (Hnull st Hparse).
      vm_compute in Hparse. injection Hparse as <-. reflexivity.
  - destruct (C7_dangling_redirection_needs_a_command
                (with_fork os_example 0) (initial 1234) "cat notes <")
      as (Hin & _).
    + vm_compute. lia.
    + vm_compute. lia.
    + destruct Hin as (st & Hparse & Hnone & _ & Hrun); [reflexivity|].
      exists st. split; [exact Hparse|]. split; [exact Hnone|].
      destruct (Hrun "cat") as (more & Hargv & H).
      * vm_compute in Hparse. injection Hparse as <-. reflexivity.
      * reflexivity.
      * reflexivity.
      * discriminate.
      * reflexivity.
      * vm_compute in Hparse. injection Hparse as <-.
        vm_compute in Hargv. injection Hargv as <-. exact H.
  - destruct (C7_dangling_redirection_needs_a_command
                (with_fork os_example 0) (initial 1234) "cat < < <")
      as (Hin & _).
    + vm_compute. lia.
    + vm_compute. lia.
    + destruct Hin as (st & Hparse & Hnone & Hopen & _); [reflexivity|].
      exists st. auto.
Defined.

(** C8: the reaper takes every child whose termination is pending, each
    by a [waitpid(-1, &status, WNOHANG)], and prints its line; the call
    that finds none left is non-blocking as well, and ends the loop. *)
Theorem C8_reaper_drains_without_blocking :
  forall (ended : list (positive * outcome)) (more : bool) (p : process),
    forallb (fun c => valid_outcome (snd c)) ended = true ->
    let pending := map (fun c => (fst c, encode (snd c))) ended in
    handle_sigchld pending more p
    = (Returns tt, p,
       (flat_map
          (fun c => [Waitpid (-1) WNOHANG (Z.pos (fst c)) (Some (encode (snd c)));
                     Printf (reaped_line (Z.pos (fst c)) (snd c))])
          ended
        ++ [Waitpid (-1) WNOHANG (if more then 0 else -1) None; Fflush])%list)
    /\ existsb is_foreground_wait (snd (handle_sigchld pending more p)) = false.
Proof.
  intros ended more p Hv pending. split.
  - rewrite handle_sigchld_run. do 2 f_equal. subst pending.
    induction ended as [|[c o] rest IH]; [reflexivity|].
    cbn [forallb snd] in Hv. apply andb_true_iff in Hv as [Ho Hv].
    cbn [map flat_map fst snd app]. rewrite IH by assumption.
    do 2 f_equal. f_equal. unfold report.
    destruct o as [k|s core].
    + apply valid_exited in Ho. now destruct (decode_exited k Ho) as [-> ->].
    + apply valid_killed in Ho. now destruct (decode_killed s core Ho) as [-> ->].
  - apply handle_sigchld_state.
Qed.

(** C8, at a concrete input: two pending children, one killed by signal
    9 and one that exited with code 1, and no child left after them. *)
Lemma C8_witness :
  handle_sigchld [(77%positive, 9); (78%positive, 256)] false (initial 1234)
  = (Returns tt, initial 1234,
     [Waitpid (-1) WNOHANG 77 (Some 9);
      Printf ("Background process with PID 77 terminated by signal 9" ++ nl);
      Waitpid (-1) WNOHANG 78 (Some 256);
      Printf ("Background process with PID 78 exited with status 1" ++ nl);
      Waitpid (-1) WNOHANG (-1) None; Fflush])
  /\ existsb is_foreground_wait
       (snd (handle_sigchld [(77%positive, 9); (78%positive, 256)] false
               (initial 1234))) = false.
Proof.
  apply (C8_reaper_drains_without_blocking
           [(77%positive, Killed 9 false); (78%positive, Exited 1)]
           false (initial 1234)).
  reflexivity.
Defined.

(** C9: the child first sets SIGTSTP to be ignored and SIGINT to its
    default, whatever the shell had; everything else it does --
    redirection, [execvp] -- comes after and sets no disposition. *)
Theorem C9_child_resets_dispositions :
  forall os a inF outF bg p,
    fork_ret os = 0 ->
    let run := executeCommand os a inF outF bg p in
    exists t,
      snd run
      = Fork 0 :: Signal SIGTSTP SIG_IGN :: Signal SIGINT SIG_DFL :: t
      /\ existsb is_signal t = false
      /\ on_SIGTSTP (snd (fst run)) = SIG_IGN
      /\ on_SIGINT (snd (fst run)) = SIG_DFL.
Proof.
  intros os a inF outF bg p Hfork run.
  pose proof (child_rest_no_signal os a inF outF
                (set_disposition (set_disposition p SIGTSTP SIG_IGN)
                   SIGINT SIG_DFL)) as H.
  cbv zeta in H. destruct H as [Hq Ht].
  subst run. unfold executeCommand, child.
  cbv [bind emit get signal] in *. rewrite Hfork. cbn [Z.eqb].
  match type of Hq with
  | snd (fst ?x) = _ => destruct x as [[r q'] t] eqn:E
  end.
  cbn [fst snd] in *. subst q'.
  exists t. repeat split; assumption.
Qed.

(** C9, at a concrete input: the child of [cat < in.txt]. *)
Lemma C9_witness :
  let run := executeCommand (with_fork os_example 0)
               [Ptr "cat"; Null] (Some "in.txt") None 0 (initial 1234) in
  exists t,
    snd run = Fork 0 :: Signal SIGTSTP SIG_IGN :: Signal SIGINT SIG_DFL :: t
    /\ existsb is_signal t = false
    /\ on_SIGTSTP (snd (fst run)) = SIG_IGN
    /\ on_SIGINT (snd (fst run)) = SIG_DFL.
Proof.
  apply (C9_child_resets_dispositions (with_fork os_example 0)).
  reflexivity.
Defined.

(** C10, what the code does.  When the [waitpid] of the launcher returns
    the foreground child, which ended as [o], the exit-status slot holds
    the exit code of [o], a value from 0 to 255, if the child exited, and
    -1, with the signal in the other slot, if a signal ended it; [status]
    then prints the line that fits [o].  In every state the shell reaches
    the slot holds -1 or a value from 0 to 255, and -1 exactly when the
    last status a blocking wait delivered was that of a signal-terminated
    child.  But when that [waitpid] fails, the test of the launcher reads a
    [status] never written: which of the two forms is stored is not
    determined by how the child ended. *)
Theorem C10_sentinel_follows_the_status_read :
  (forall os a inF outF bg p o,
      0 < fork_ret os ->
      bg = 0 \/ foreground_only_mode p <> 0 ->
      valid_outcome o = true ->
      wait_ret os <> -1 ->
      wait_status os = encode o ->
      let q := snd (fst (executeCommand os a inF outF bg p)) in
      match o with
      | Exited k => lastExitStatus q = k /\ 0 <= lastExitStatus q <= 255
      | Killed s _ => lastExitStatus q = -1 /\ lastTerminalSignal q = s
      end
      /\ status_text q = status_line o)
  /\ (forall (l : list stimulus) (pid : Z),
         let p := snd (fst (run l (initial pid))) in
         let last := last_foreground (snd (run l (initial pid))) None in
         (lastExitStatus p = -1 \/ 0 <= lastExitStatus p <= 255)
         /\ (lastExitStatus p = -1
             <-> exists status,
                  last = Some status /\ WIFSIGNALED status = true)
         /\ (forall status, 0 <= WEXITSTATUS status <= 255)
         /\ status_text p
            = match last with
              | None => "exit value: 0" ++ nl
              | Some status =>
                  if WIFSIGNALED status
                  then "terminated by signal "
                         ++ decimal (WTERMSIG status) ++ nl
                  else "exit value: " ++ decimal (WEXITSTATUS status) ++ nl
              end)
  /\ (forall os a inF outF bg p,
         0 < fork_ret os ->
         bg = 0 \/ foreground_only_mode p <> 0 ->
         wait_ret os = -1 ->
         executeCommand os a inF outF bg p
         = (Undefined IndeterminateRead, p,
            [Fork (fork_ret os); Waitpid (fork_ret os) 0 (-1) None])).
Proof.
  split; [|split].
  - intros os a inF outF bg p o Hpid Hfg Hv Hret Hw q. subst q.
    rewrite executeCommand_waited by (assumption || lia).
    rewrite Hw. cbn [fst snd]. split; [|now apply status_text_after].
    destruct o as [k|s c].
    + pose proof (valid_exited k Hv) as Hk.
      destruct (decode_exited k Hk) as [-> ->].
      cbn [lastExitStatus set_status]. lia.
    + pose proof (valid_killed s c Hv) as Hk.
      destruct (decode_killed s c Hk) as [-> ->]. split; reflexivity.
  - intros l pid p last.
    assert (H : status_agrees p last).
    { apply run_status_agrees. reflexivity. }
    split; [|split; [|split]].
    + unfold status_agrees in H. destruct last as [status|].
      * destruct (WIFSIGNALED status); [left; apply H|right].
        rewrite H. apply WEXITSTATUS_range.
      * right. lia.
    + unfold status_agrees in H. destruct last as [status|].
      * destruct (WIFSIGNALED status) eqn:E.
        -- split; [eauto|intros _; apply H].
        -- pose proof (WEXITSTATUS_range status). split; [lia|].
           intros (s & [= <-] & Hs). congruence.
      * split; [lia|]. intros (s & Hs & _). discriminate.
    + apply WEXITSTATUS_range.
    + now apply status_agrees_text.
  - intros os a inF outF bg p Hpid Hfg Hret.
    apply executeCommand_wait_failed; auto; lia.
Qed.

(** C10, at the failing input: a foreground child that is reaped by
    [handle_sigchld] before the launcher calls [waitpid].  Whether it
    exited or was killed, the launcher tests a [status] it never set. *)
Lemma C10_witness :
  executeCommand (with_wait_ret os_example (-1)) [Ptr "false"; Null] None None
    0 (initial 1234)
  = (Undefined IndeterminateRead, initial 1234,
     [Fork 4321; Waitpid 4321 0 (-1) None]).
Proof.
  apply (proj2 (proj2 C10_sentinel_follows_the_status_read)
           (with_wait_ret os_example (-1)) [Ptr "false"; Null] None None 0
           (initial 1234)).
  - reflexivity.
  - left. reflexivity.
  - reflexivity.
Defined.

End Claims.

Section ParseExtras.

(** X1: [parseInput] sees a line through its words only: the line and its
    words written with single spaces between them parse alike, so leading,
    trailing and repeated spaces make no difference. *)
Theorem parseInput_spacing :
  forall pid mode line st,
    parseInput pid mode line st
    = parseInput pid mode (String.concat " " (tokens line)) st.
Proof.
  intros pid mode line st. rewrite !parseInput_scan.
  rewrite tokens_of_words; [reflexivity|].
  apply (tokens_are_words (strlen line)), le_n.
Qed.

(** X2: a command line written after the grammar -- plain words, then
    redirections and [&] in any order -- parses to exactly those words as
    the null-terminated argument vector, the last input path and the last
    output path given, and the background flag 1 when there is a [&] and
    the mode is off, else 0. *)
Theorem parseInput_grammar_line :
  forall pid mode ws its,
    forallb plain_word ws = true ->
    forallb item_ok its = true ->
    (List.length ws < MAX_ARG_SIZE)%nat ->
    exists st,
      parseInput pid mode (grammar_line ws its) locals = Returns st
      /\ read_argv (args st) = Returns ws
      /\ i st = List.length ws
      /\ inputFile st = items_input its None
      /\ outputFile st = items_output its None
      /\ background st = items_background mode its 0.
Proof.
  intros pid mode ws its Hws Hits Hlen.
  eexists. split; [now apply parseInput_grammar|].
  cbn [args i inputFile outputFile background].
  repeat split. apply read_argv_words.
Qed.

Lemma parseInput_grammar_line_witness :
  exists st,
    parseInput 1234 0 "wc -l < in.txt > out.txt &" locals = Returns st
    /\ read_argv (args st) = Returns ["wc"; "-l"]
    /\ i st = 2%nat
    /\ inputFile st = Some "in.txt"
    /\ outputFile st = Some "out.txt"
    /\ background st = 1.
Proof.
  apply (parseInput_grammar_line 1234 0 ["wc"; "-l"]
           [Redirect_in "in.txt"; Redirect_out "out.txt"; Ampersand]).
  - reflexivity.
  - reflexivity.
  - vm_compute. lia.
Defined.

Lemma firstn_plain (n : nat) (ws : list string) :
  forallb plain_word ws = true -> forallb plain_word (firstn n ws) = true.
Proof.
  revert n. induction ws as [|w ws IH]; intros [|n]; try reflexivity.
  cbn [forallb firstn]. intros H. apply andb_true_iff in H as [Hw H].
  now rewrite Hw, IH.
Qed.

Lemma skipn_plain (n : nat) (ws : list string) :
  forallb plain_word ws = true -> forallb plain_word (skipn n ws) = true.
Proof.
  revert n. induction ws as [|w ws IH]; intros [|n]; try reflexivity.
  - auto.
  - cbn [forallb skipn]. intros H. apply andb_true_iff in H as [_ H]. auto.
Qed.

(** X3: the bound of [args]: a line of plain words is parsed when it has
    fewer than [MAX_ARG_SIZE] of them, and makes [parseInput] store outside
    [args] as soon as it has that many. *)
Theorem parseInput_word_bound :
  forall pid mode ws,
    forallb plain_word ws = true ->
    ((List.length ws < MAX_ARG_SIZE)%nat ->
     exists st, parseInput pid mode (String.concat " " ws) locals = Returns st
                /\ read_argv (args st) = Returns ws)
    /\ ((MAX_ARG_SIZE <= List.length ws)%nat ->
        parseInput pid mode (String.concat " " ws) locals
        = Undefined OutOfBounds).
Proof.
  intros pid mode ws Hws. split; intros Hlen.
  - pose proof (parseInput_grammar pid mode ws [] Hws eq_refl Hlen) as Hp.
    unfold grammar_line in Hp. cbn [flat_map] in Hp. rewrite app_nil_r in Hp.
    eexists. split; [exact Hp|]. cbn [args]. apply read_argv_words.
  - rewrite parseInput_scan, tokens_of_words by now apply plain_words_words.
    change {| args := args locals; i := 0; inputFile := inputFile locals;
              outputFile := outputFile locals;
              background := background locals |} with locals.
    rewrite <- (firstn_skipn MAX_ARG_SIZE ws).
    pose proof (firstn_plain MAX_ARG_SIZE ws Hws) as Hpre.
    pose proof (skipn_plain MAX_ARG_SIZE ws Hws) as Hpost.
    assert (Hlpre : List.length (firstn MAX_ARG_SIZE ws) = MAX_ARG_SIZE)
      by (rewrite length_firstn; lia).
    rewrite (scan_app pid mode MAX_ARG_SIZE);
      [|lia|now apply plain_word_last].
    rewrite (scan_plain_words pid mode _ locals [] (args locals));
      [|reflexivity|reflexivity|rewrite locals_room; lia|assumption].
    cbn [and_then app].
    assert (Hfull : skipn (List.length (firstn MAX_ARG_SIZE ws)) (args locals)
                    = []).
    { apply skipn_all2. rewrite locals_room. lia. }
    rewrite Hfull, app_nil_r.
    destruct (skipn MAX_ARG_SIZE ws) as [|w post].
    + cbn [scan and_then]. unfold end_args. cbn [args i].
      rewrite poke_out_of_bounds; [reflexivity|]. now rewrite length_map.
    + cbn [forallb] in Hpost. apply andb_true_iff in Hpost as [Hw _].
      apply plain_word_scan in Hw as (_ & H1 & H2 & H3 & H4).
      cbn [scan]. rewrite H1, H2, H3, H4. unfold push_arg. cbn [args i].
      rewrite poke_out_of_bounds; [reflexivity|]. now rewrite length_map.
Qed.

Lemma parseInput_word_bound_witness :
  (exists st, parseInput 1234 0 (String.concat " " ["ls"; "-la"]) locals
              = Returns st
              /\ read_argv (args st) = Returns ["ls"; "-la"])
  /\ parseInput 1234 0 (String.concat " " (repeat "x" 600)) locals
     = Undefined OutOfBounds.
Proof.
  split.
  - apply (parseInput_word_bound 1234 0 ["ls"; "-la"]); [reflexivity|].
    vm_compute. lia.
  - apply (parseInput_word_bound 1234 0 (repeat "x" 600)).
    + vm_compute. reflexivity.
    + vm_compute. lia.
Defined.

End ParseExtras.

Section Defined.



End Defined.

Section ExpandExtras.

Lemma take_all (n : nat) :
  forall s, (strlen s <= n)%nat -> take n s = s.
Proof.
  unfold strlen. induction n as [|n IH]; intros [|c s] H; cbn in *;
    try reflexivity; try lia.
  now rewrite IH by lia.
Qed.

Lemma strlen_take_exact (n : nat) :
  forall s, (n <= strlen s)%nat -> strlen (take n s) = n.
Proof.
  unfold strlen. induction n as [|n IH]; intros [|c s] H; cbn in *;
    try reflexivity; try lia.
  now rewrite IH by lia.
Qed.

(** X5: when nothing follows its last marker, and the process identifier
    has at most six characters, a token comes back from [expandShellID]
    with every marker replaced by the identifier and all else kept; its
    length is that of the token plus, for each marker, the length of the
    identifier less two; no marker is left. *)
Theorem expandShellID_without_tail :
  forall pid segs,
    forallb segment_ok segs = true ->
    segs <> [] ->
    (strlen (chunks segs) < MAX_INPUT_SIZE)%nat ->
    no_nul (chunks segs) = true ->
    (strlen (decimal pid) <= 6)%nat ->
    let out := expansion (decimal pid) segs in
    expandShellID pid (chunks segs) = Returns out
    /\ Z.of_nat (strlen out)
       = Z.of_nat (strlen (chunks segs))
         + Z.of_nat (List.length segs) * (Z.of_nat (strlen (decimal pid)) - 2)
    /\ has_marker out = false.
Proof.
  intros pid segs Hall Hne Hlen Hnul Hpid out.
  assert (Hss : snprintf_d 7 pid = decimal pid)
    by (unfold snprintf_d; now apply take_all).
  pose proof (expandShellID_chunks pid segs EmptyString Hall eq_refl Hne) as H.
  rewrite app_nil_r_s, Hss in H. split; [now apply H|]. split.
  - subst out. pose proof (strlen_expansion (decimal pid) segs) as He.
    apply (f_equal Z.of_nat) in He.
    rewrite !Nat2Z.inj_add, !Nat2Z.inj_mul in *. lia.
  - subst out. rewrite <- Hss. apply expansion_marker_free; try assumption.
    + apply SS_PID_nonempty.
    + apply SS_PID_dollar_free.
Qed.

Lemma expandShellID_without_tail_witness :
  expandShellID 1234 "$$a$$$$" = Returns "1234a12341234"
  /\ 13 = 7 + 3 * (4 - 2)
  /\ has_marker "1234a12341234" = false.
Proof.
  apply (expandShellID_without_tail 1234 [EmptyString; "a"; EmptyString]).
  - reflexivity.
  - discriminate.
  - vm_compute. lia.
  - reflexivity.
  - vm_compute. lia.
Defined.

(** X6: [SS_PID] has room for six characters: when the process identifier
    has more, each marker is replaced by its first six characters only,
    and the result is shorter than the expansion with the whole
    identifier. *)
Theorem expandShellID_long_pid :
  forall pid segs tail,
    forallb segment_ok segs = true ->
    has_marker tail = false ->
    segs <> [] ->
    (strlen (chunks segs ++ tail) < MAX_INPUT_SIZE)%nat ->
    no_nul (chunks segs ++ tail) = true ->
    (6 < strlen (decimal pid))%nat ->
    let out := expansion (take 6 (decimal pid)) segs in
    expandShellID pid (chunks segs ++ tail) = Returns out
    /\ (strlen out + 2 * List.length segs
        = strlen (chunks segs) + 6 * List.length segs)%nat
    /\ (strlen out < strlen (expansion (decimal pid) segs))%nat.
Proof.
  intros pid segs tail Hall Htail Hne Hlen Hnul Hpid out.
  pose proof (expandShellID_chunks pid segs tail Hall Htail Hne Hlen Hnul) as H.
  change (snprintf_d 7 pid) with (take 6 (decimal pid)) in H.
  pose proof (strlen_expansion (take 6 (decimal pid)) segs) as H6.
  pose proof (strlen_expansion (decimal pid) segs) as Hd.
  rewrite strlen_take_exact in H6 by lia.
  fold out in H6. split; [exact H|]. split; [lia|].
  destruct segs as [|seg segs]; [congruence|]. cbn [List.length] in *. nia.
Qed.

Lemma expandShellID_long_pid_witness :
  expandShellID 1234567 "pid=$$" = Returns "pid=123456"
  /\ (10 + 2 * 1 = 6 + 6 * 1)%nat
  /\ (10 < strlen "pid=1234567")%nat.
Proof.
  apply (expandShellID_long_pid 1234567 ["pid="] EmptyString).
  - reflexivity.
  - reflexivity.
  - discriminate.
  - vm_compute. lia.
  - reflexivity.
  - vm_compute. lia.
Defined.

End ExpandExtras.

Section LoopExtras.

Lemma main_turn_unfold (os : os_replies) (raw : string) (p : process) :
  main_turn os (Some raw) p
  = if skipped (chop_newline raw) then (Returns tt, p, prompt)
    else after_prompt (handleCommand os (chop_newline raw) p).
Proof.
  cbv [main_turn bind printf fflush emit ret after_prompt prompt].
  destruct (chop_newline raw) as [|c r]; [reflexivity|].
  cbn [skipped]. destruct (Ascii.eqb c "#"); [reflexivity|].
  destruct (handleCommand os (String c r) p) as [[res q] t].
  destruct res; reflexivity.
Qed.

Lemma chop_newline_line (line junk : string) (c : ascii) :
  newline_free line = true ->
  no_nul line = true ->
  c = NUL \/ c = ascii_of_nat 10 ->
  chop_newline line = line
  /\ chop_newline (line ++ String c junk) = line.
Proof.
  intros Hfree Hnul Hc.
  induction line as [|d line IH].
  - split; [reflexivity|]. cbn [append chop_newline].
    destruct Hc as [-> | ->]; reflexivity.
  - cbn [newline_free] in Hfree. apply andb_true_iff in Hfree as [Hd Hfree].
    cbn [no_nul] in Hnul. apply andb_true_iff in Hnul as [Hd0 Hnul].
    apply negb_true_iff in Hd, Hd0. destruct (IH Hfree Hnul) as [H1 H2].
    cbn [append chop_newline]. now rewrite Hd, Hd0, H1, H2.
Qed.

(** X7: a turn of the loop on end of input, on an empty line or on a line
    whose first character is [#] prints the prompt and does nothing else:
    the state is as before and no command is dispatched. *)
Theorem main_turn_skips :
  forall os p,
    main_turn os None p = (Returns tt, p, prompt)
    /\ forall raw,
        skipped (chop_newline raw) = true ->
        main_turn os (Some raw) p = (Returns tt, p, prompt).
Proof.
  intros os p. split; [reflexivity|].
  intros raw H. now rewrite main_turn_unfold, H.
Qed.

Lemma main_turn_skips_witness :
  main_turn os_example (Some ("# exit" ++ nl)) (initial 1234)
  = (Returns tt, initial 1234, prompt).
Proof.
  apply (proj2 (main_turn_skips os_example (initial 1234))).
  reflexivity.
Defined.

(** X8: a turn of the loop hands [handleCommand], after the prompt, the
    bytes [fgets] stored up to the first newline or null byte -- all of
    them when there is neither; what follows that byte plays no part. *)
Theorem main_turn_line :
  forall os p line junk c,
    newline_free line = true ->
    no_nul line = true ->
    skipped line = false ->
    c = NUL \/ c = ascii_of_nat 10 ->
    main_turn os (Some (line ++ String c junk)) p
    = after_prompt (handleCommand os line p)
    /\ main_turn os (Some line) p = after_prompt (handleCommand os line p).
Proof.
  intros os p line junk c Hfree Hnul Hskip Hc.
  destruct (chop_newline_line line junk c Hfree Hnul Hc) as [H1 H2].
  rewrite !main_turn_unfold, H1, H2, Hskip. split; reflexivity.
Qed.

Lemma main_turn_line_witness :
  main_turn os_example (Some ("status" ++ String NUL "exit" ++ nl))
    (initial 1234)
  = (Returns tt, initial 1234,
     [Printf ": "; Fflush; Printf ("exit value: 0" ++ nl); Fflush]).
Proof.
  destruct (main_turn_line os_example (initial 1234) "status"
              ("exit" ++ nl) NUL) as [H _].
  - reflexivity.
  - reflexivity.
  - reflexivity.
  - left. reflexivity.
  - exact H.
Defined.

End LoopExtras.

Section BuiltinExtras.

Lemma handleCommand_grammar (os : os_replies) (p : process)
    (ws : list string) (its : list item) :
  forallb plain_word ws = true ->
  forallb item_ok its = true ->
  (List.length ws < MAX_ARG_SIZE)%nat ->
  handleCommand os (grammar_line ws its) p
  = dispatch os
      {| args := (map Ptr ws ++ Null
                    :: skipn (S (List.length ws)) (args locals))%list;
         i := List.length ws;
         inputFile := items_input its None;
         outputFile := items_output its None;
         background := items_background (foreground_only_mode p) its 0 |}
      p.
Proof.
  intros Hws Hits Hlen.
  rewrite handleCommand_unfold, parseInput_grammar by assumption.
  reflexivity.
Qed.

(** The built-in a line names by its first word is run whatever
    follows that word. *)
Lemma handleCommand_first_word (os : os_replies) (p : process)
    (input verb : string) (rest : list string) :
  (strlen input < MAX_INPUT_SIZE)%nat ->
  (List.length (tokens input) < MAX_ARG_SIZE)%nat ->
  tokens input = verb :: rest ->
  is_redirect verb = false ->
  streq verb "&" = false ->
  has_marker verb = false ->
  exists st,
    handleCommand os input p = dispatch os st p
    /\ nth_error (args st) 0 = Some (Ptr verb).
Proof.
  intros Hlen Htok Ht Hr Hamp Hm.
  destruct (parseInput_first_word (self_pid p) (foreground_only_mode p)
              input verb rest Hlen Htok Ht Hr Hamp)
    as (st & e & more & f & Hparse & Ha & He).
  exists st. rewrite handleCommand_unfold, Hparse. split; [reflexivity|].
  rewrite Ha, (He Hm). reflexivity.
Qed.



(** X10: a line whose first word is [status], whatever follows that word,
    prints the status line in the shell itself and changes nothing: no
    fork, no redirection of its output, no background launch. *)
Theorem status_line_ignores_the_rest :
  forall os p input rest,
    (strlen input < MAX_INPUT_SIZE)%nat ->
    (List.length (tokens input) < MAX_ARG_SIZE)%nat ->
    tokens input = "status" :: rest ->
    handleCommand os input p
    = (Returns tt, p, [Printf (status_text p); Fflush]).
Proof.
  intros os p input rest Hlen Htok Ht.
  destruct (handleCommand_first_word os p input "status" rest Hlen Htok Ht)
    as (st & -> & Hverb); try reflexivity.
  unfold dispatch. rewrite Hverb. reflexivity.
Qed.

Lemma status_line_ignores_the_rest_witness :
  handleCommand os_example "status $$ > out.txt extra &" (initial 1234)
  = (Returns tt, initial 1234, [Printf ("exit value: 0" ++ nl); Fflush]).
Proof.
  apply (status_line_ignores_the_rest os_example (initial 1234)
           "status $$ > out.txt extra &" ["$$"; ">"; "out.txt"; "extra"; "&"]).
  - vm_compute. lia.
  - vm_compute. lia.
  - reflexivity.
Defined.

(** X11: [cd] alone changes to what [getenv("HOME")] returns -- the null
    pointer when the variable is not set -- and reports nothing, whatever
    [chdir] returns.  [cd dir ...] changes to [dir], ignores further words,
    and prints "cd failed" exactly when [chdir] does not return 0.  Either
    way the shell goes on, its state unchanged. *)
Theorem cd_line :
  forall os p its,
    forallb item_ok its = true ->
    handleCommand os (grammar_line ["cd"] its) p
    = (Returns tt, p, [Chdir (home os) (chdir_ret os)])
    /\ forall dir rest,
        forallb plain_word (dir :: rest) = true ->
        (S (S (List.length rest)) < MAX_ARG_SIZE)%nat ->
        handleCommand os (grammar_line ("cd" :: dir :: rest) its) p
        = (Returns tt, p,
           Chdir (Some dir) (chdir_ret os)
             :: (if chdir_ret os =? 0 then [] else [Perror "cd failed"])).
Proof.
  intros os p its Hits. split.
  - rewrite handleCommand_grammar; try assumption; try reflexivity.
    vm_compute. lia.
  - intros dir rest Hws Hlen.
    rewrite handleCommand_grammar by assumption.
    cbv [dispatch handleCd bind emit perror ret]. cbn.
    destruct (chdir_ret os =? 0); reflexivity.
Qed.

Lemma cd_line_witness :
  handleCommand (with_fork os_example 0) "cd" (initial 1234)
  = (Returns tt, initial 1234, [Chdir (Some "/root") 0])
  /\ handleCommand os_example "cd /tmp extra" (initial 1234)
     = (Returns tt, initial 1234, [Chdir (Some "/tmp") 0]).
Proof.
  split.
  - apply (proj1 (cd_line (with_fork os_example 0) (initial 1234) [] eq_refl)).
  - apply (proj2 (cd_line os_example (initial 1234) [] eq_refl) "/tmp" ["extra"]).
    + reflexivity.
    + vm_compute. lia.
Defined.

End BuiltinExtras.

Section ChildExtras.

(** X12: the child never comes back into the loop of the shell.  On an
    argument vector that reads as [argv], it ends as [execvp] of [argv]
    when every redirection asked for opens and [execvp] succeeds, and with
    exit status 1 otherwise.  [execvp] is tried only after the
    redirections succeeded, and the output file is not opened when the
    input file could not be. *)
Theorem child_outcome :
  forall os a inF outF bg p file argv,
    fork_ret os = 0 ->
    nth_error a 0 = Some (Ptr file) ->
    read_argv a = Returns argv ->
    let failed_in :=
      match inF with Some _ => open_in_ret os =? -1 | None => false end in
    let failed_out :=
      match outF with Some _ => open_out_ret os =? -1 | None => false end in
    let out := executeCommand os a inF outF bg p in
    fst (fst out)
    = (if failed_in || failed_out || negb (execvp_ok os)
       then Exits 1 else Replaced file argv)
    /\ existsb is_execvp (snd out) = negb (failed_in || failed_out)
    /\ (failed_in = true -> existsb is_output_open (snd out) = false).
Proof.
  intros os a inF outF bg p file argv Hfork H0 Hargv failed_in failed_out out.
  subst out failed_in failed_out.
  rewrite executeCommand_child by assumption.
  cbv [child redirect_input redirect_output execvp bind emit perror exit ret
         lift undefined signal].
  rewrite H0, Hargv.
  destruct inF as [fin|], outF as [fout|];
    destruct (open_in_ret os =? -1), (open_out_ret os =? -1),
      (execvp_ok os);
    cbn; repeat split; try reflexivity; try discriminate.
Qed.

Lemma child_outcome_witness :
  let os := {| fork_ret := 0; open_in_ret := -1; open_out_ret := 4;
               execvp_ok := true; wait_ret := 0; wait_status := 0;
               home := None; chdir_ret := 0 |} in
  let out := executeCommand os [Ptr "cat"; Null] (Some "missing")
               (Some "out.txt") 0 (initial 1234) in
  fst (fst out) = Exits 1
  /\ existsb is_execvp (snd out) = false
  /\ existsb is_output_open (snd out) = false.
Proof.
  intros os out.
  destruct (child_outcome os [Ptr "cat"; Null] (Some "missing")
              (Some "out.txt") 0 (initial 1234) "cat" ["cat"])
    as (H1 & H2 & H3); try reflexivity.
  split; [exact H1|]. split; [exact H2|]. apply H3. reflexivity.
Defined.

(** X13: end to end in the child: for a line written after the grammar whose
    first word is no built-in, when the files open and [execvp] succeeds,
    the child sets the two dispositions, binds the last input path given to
    descriptor 0 and the last output path given (created or truncated, mode
    0644) to descriptor 1, input first, closes the descriptors it opened,
    and becomes the command with exactly the words of the line as
    arguments. *)
Theorem external_line_in_child :
  forall os p cmd rest its,
    forallb plain_word (cmd :: rest) = true ->
    is_builtin cmd = false ->
    forallb item_ok its = true ->
    (S (List.length rest) < MAX_ARG_SIZE)%nat ->
    fork_ret os = 0 ->
    open_in_ret os <> -1 ->
    open_out_ret os <> -1 ->
    execvp_ok os = true ->
    handleCommand os (grammar_line (cmd :: rest) its) p
    = (Replaced cmd (cmd :: rest),
       set_disposition (set_disposition p SIGTSTP SIG_IGN) SIGINT SIG_DFL,
       ([Fork 0; Signal SIGTSTP SIG_IGN; Signal SIGINT SIG_DFL]
        ++ redirections os (items_input its None) (items_output its None)
        ++ [Execvp cmd (cmd :: rest)])%list).
Proof.
  intros os p cmd rest its Hws Hb Hits Hlen Hfork Hin Hout Hexec.
  rewrite handleCommand_grammar by assumption.
  unfold is_builtin in Hb. apply orb_false_iff in Hb as [Hb Hb3].
  apply orb_false_iff in Hb as [Hb1 Hb2].
  set (a := (map Ptr (cmd :: rest) ++ Null :: _)%list).
  assert (H0 : nth_error a 0 = Some (Ptr cmd)) by reflexivity.
  assert (Hargv : read_argv a = Returns (cmd :: rest))
    by apply read_argv_words.
  clearbody a.
  unfold dispatch. cbn [args inputFile outputFile background].
  rewrite H0, Hb1, Hb2, Hb3.
  rewrite executeCommand_child by assumption.
  cbv [child redirect_input redirect_output execvp bind emit perror exit ret
         lift undefined signal redirections].
  rewrite H0, Hargv, Hexec.
  apply Z.eqb_neq in Hin, Hout.
  destruct (items_input its None), (items_output its None);
    rewrite ?Hin, ?Hout; reflexivity.
Qed.

Lemma external_line_in_child_witness :
  handleCommand (with_fork os_example 0) "echo hi > out.txt" (initial 1234)
  = (Replaced "echo" ["echo"; "hi"],
     set_disposition (set_disposition (initial 1234) SIGTSTP SIG_IGN)
       SIGINT SIG_DFL,
     [Fork 0; Signal SIGTSTP SIG_IGN; Signal SIGINT SIG_DFL;
      Open "out.txt" (O_WRONLY_CREAT_TRUNC 420) 4; Dup2 4 1; Close 4;
      Execvp "echo" ["echo"; "hi"]]).
Proof.
  apply (external_line_in_child (with_fork os_example 0) (initial 1234)
           "echo" ["hi"] [Redirect_out "out.txt"]);
    try reflexivity; try discriminate.
  vm_compute. lia.
Defined.

(** X14: end to end in the shell: for such a line, when [fork] returns the
    child's identifier, the shell prints that identifier and returns at
    once, its state unchanged, if the line holds a [&] and the mode is
    off.  Otherwise it calls [waitpid] for that child: when the call
    returns the child, the shell records how it ended; when the call fails,
    the shell reads the [status] it never set. *)
Theorem external_line_in_shell :
  forall os p cmd rest its,
    forallb plain_word (cmd :: rest) = true ->
    is_builtin cmd = false ->
    forallb item_ok its = true ->
    (S (List.length rest) < MAX_ARG_SIZE)%nat ->
    0 < fork_ret os ->
    handleCommand os (grammar_line (cmd :: rest) its) p
    = if existsb (fun it => match it with Ampersand => true | _ => false end)
           its
         && (foreground_only_mode p =? 0)
      then (Returns tt, p,
            [Fork (fork_ret os);
             Printf ("Background process ID: " ++ decimal (fork_ret os) ++ nl);
             Fflush])
      else if wait_ret os =? -1
      then (Undefined IndeterminateRead, p,
            [Fork (fork_ret os); Waitpid (fork_ret os) 0 (-1) None])
      else (Returns tt,
            (if WIFSIGNALED (wait_status os)
             then set_status p (-1) (WTERMSIG (wait_status os))
             else set_status p (WEXITSTATUS (wait_status os))
                    (lastTerminalSignal p)),
            [Fork (fork_ret os);
             Waitpid (fork_ret os) 0 (wait_ret os) (Some (wait_status os))]).
Proof.
  intros os p cmd rest its Hws Hb Hits Hlen Hpid.
  rewrite handleCommand_grammar by assumption.
  unfold is_builtin in Hb. apply orb_false_iff in Hb as [Hb Hb3].
  apply orb_false_iff in Hb as [Hb1 Hb2].
  set (a := (map Ptr (cmd :: rest) ++ Null :: _)%list).
  assert (H0 : nth_error a 0 = Some (Ptr cmd)) by reflexivity.
  clearbody a.
  unfold dispatch. cbn [args inputFile outputFile background].
  rewrite H0, Hb1, Hb2, Hb3.
  assert (Hbg : forall acc,
             items_background (foreground_only_mode p) its acc
             = if existsb (fun it => match it with
                                     | Ampersand => true
                                     | _ => false
                                     end) its
                  && (foreground_only_mode p =? 0)
               then 1 else acc).
  { induction its as [|[f|f|] its IH]; intros acc; cbn [items_background existsb];
      try reflexivity.
    - apply IH. cbn [forallb item_ok] in Hits. now apply andb_true_iff in Hits.
    - apply IH. cbn [forallb item_ok] in Hits. now apply andb_true_iff in Hits.
    - rewrite IH by exact Hits. cbn [orb andb].
      destruct (foreground_only_mode p =? 0); [|now rewrite andb_false_r].
      now destruct (existsb _ its). }
  rewrite Hbg.
  destruct (existsb _ its && (foreground_only_mode p =? 0)) eqn:E.
  - apply andb_true_iff in E as [_ E]. apply Z.eqb_eq in E.
    rewrite executeCommand_background; auto; lia.
  - destruct (wait_ret os =? -1) eqn:Ew.
    + apply Z.eqb_eq in Ew.
      apply executeCommand_wait_failed; auto; lia.
    + apply Z.eqb_neq in Ew.
      apply executeCommand_waited; auto; lia.
Qed.

Lemma external_line_in_shell_witness :
  handleCommand os_example "sleep 5 > log &" (initial 1234)
  = (Returns tt, initial 1234,
     [Fork 4321; Printf ("Background process ID: 4321" ++ nl); Fflush])
  /\ handleCommand (with_wait_ret os_example (-1)) "sleep 5 > log"
       (initial 1234)
     = (Undefined IndeterminateRead, initial 1234,
        [Fork 4321; Waitpid 4321 0 (-1) None]).
Proof.
  split.
  - apply (external_line_in_shell os_example (initial 1234) "sleep" ["5"]
             [Redirect_out "log"; Ampersand]);
      try reflexivity.
    vm_compute. lia.
  - apply (external_line_in_shell (with_wait_ret os_example (-1))
             (initial 1234) "sleep" ["5"] [Redirect_out "log"]);
      try reflexivity.
    vm_compute. lia.
Defined.

End ChildExtras.

Section ShellExtras.

Lemma handleCommand_keeps_mode (os : os_replies) (input : string) (p : process) :
  foreground_only_mode (snd (fst (handleCommand os input p)))
  = foreground_only_mode p.
Proof.
  apply (carries_handleCommand
           (fun p t p' => foreground_only_mode p' = foreground_only_mode p));
    try reflexivity.
  - intros q t1 q1 t2 q2 H1 H2. congruence.
  - intros q st pid r. now destruct (WIFSIGNALED st).
Qed.

Lemma main_turn_keeps_mode (os : os_replies) (line : option string)
    (p : process) :
  foreground_only_mode (snd (fst (main_turn os line p)))
  = foreground_only_mode p.
Proof.
  destruct line as [raw|]; [|reflexivity].
  rewrite main_turn_unfold. destruct (skipped _); [reflexivity|].
  pose proof (handleCommand_keeps_mode os (chop_newline raw) p) as H.
  destruct (handleCommand os (chop_newline raw) p) as [[r q] t]. exact H.
Qed.

Lemma run_cons (s : stimulus) (l : list stimulus) (p : process) :
  run (s :: l) p
  = match react s p with
    | (Returns _, p1, t1) =>
        let '(r, p2, t2) := run l p1 in (r, p2, (t1 ++ t2)%list)
    | (Exits c, p1, t1) => (Exits c, p1, t1)
    | (Replaced f a, p1, t1) => (Replaced f a, p1, t1)
    | (Signalled g, p1, t1) => (Signalled g, p1, t1)
    | (Undefined u, p1, t1) => (Undefined u, p1, t1)
    end.
Proof. reflexivity. Qed.

Lemma handle_sigtstp_run (p : process) :
  handle_sigtstp p
  = (Returns tt,
     set_mode p (if foreground_only_mode p =? 0 then 1 else 0),
     [Write STDOUT_FILENO
        (if foreground_only_mode p =? 0
         then entering_msg ++ String NUL EmptyString
         else exiting_msg)]).
Proof.
  cbv [handle_sigtstp bind get put write emit].
  destruct (foreground_only_mode p =? 0); reflexivity.
Qed.

(** X15: two SIGTSTP in a row bring the shell back to the state it was in:
    the handler changes nothing but the mode, which it flips.  Each time it
    writes its announcement straight to descriptor 1; the one for entering
    the mode goes out with the terminating null byte of the literal, as
    the count handed to [write] is one more than the length of the
    text. *)
Theorem handle_sigtstp_twice :
  forall p,
    foreground_only_mode p = 0 \/ foreground_only_mode p = 1 ->
    bind handle_sigtstp (fun _ => handle_sigtstp) p
    = (Returns tt, p,
       if foreground_only_mode p =? 0
       then [Write STDOUT_FILENO (entering_msg ++ String NUL EmptyString);
             Write STDOUT_FILENO exiting_msg]
       else [Write STDOUT_FILENO exiting_msg;
             Write STDOUT_FILENO (entering_msg ++ String NUL EmptyString)]).
Proof.
  intros p Hp. unfold bind. rewrite !handle_sigtstp_run.
  cbn [foreground_only_mode set_mode].
  destruct p as [les lts m pid i1 i2 i3]. cbn in Hp |- *.
  destruct Hp as [->| ->]; reflexivity.
Qed.

Lemma handle_sigtstp_twice_witness :
  bind handle_sigtstp (fun _ => handle_sigtstp) (initial 1234)
  = (Returns tt, initial 1234,
     [Write STDOUT_FILENO (entering_msg ++ String NUL EmptyString);
      Write STDOUT_FILENO exiting_msg]).
Proof.
  apply (handle_sigtstp_twice (initial 1234)). left. reflexivity.
Defined.

Lemma react_mode (s : stimulus) (p : process) :
  foreground_only_mode (snd (fst (react s p)))
  = match s with
    | Got_SIGTSTP => if foreground_only_mode p =? 0 then 1 else 0
    | _ => foreground_only_mode p
    end.
Proof.
  destruct s as [os line| |pending more]; cbn [react].
  - apply main_turn_keeps_mode.
  - now rewrite handle_sigtstp_run.
  - now rewrite handle_sigchld_run.
Qed.

(** X16: the mode is decided by the SIGTSTP signals alone: after any
    sequence of turns and signals that the shell gets through, it is on
    exactly when the number of SIGTSTP received is odd.  No command line and
    no SIGCHLD changes it. *)
Theorem mode_follows_SIGTSTP :
  forall l pid,
    fst (fst (run l (initial pid))) = Returns tt ->
    foreground_only_mode (snd (fst (run l (initial pid))))
    = Z.of_nat (count_SIGTSTP l) mod 2.
Proof.
  intros l pid.
  assert (H : forall p,
             foreground_only_mode p = 0 \/ foreground_only_mode p = 1 ->
             fst (fst (run l p)) = Returns tt ->
             foreground_only_mode (snd (fst (run l p)))
             = (foreground_only_mode p + Z.of_nat (count_SIGTSTP l)) mod 2).
  { induction l as [|s l IH]; intros p Hp.
    - intros _. cbn. destruct Hp as [-> | ->]; reflexivity.
    - rewrite run_cons. pose proof (react_mode s p) as Hm.
      destruct (react s p) as [[[[]| | | |] p1] t1]; cbn [fst snd] in *;
        try discriminate.
      specialize (IH p1).
      destruct (run l p1) as [[r p2] t2]. cbn [fst snd] in *.
      intros Hr. rewrite IH; [| |assumption].
      + rewrite Hm. destruct s as [os line| |pending more];
          cbn [count_SIGTSTP]; try reflexivity.
        rewrite Nat2Z.inj_succ.
        generalize (Z.of_nat (count_SIGTSTP l)); intros n.
        destruct Hp as [-> | ->]; cbn [Z.eqb].
        * f_equal. lia.
        * replace (1 + Z.succ n) with (n + 1 * 2) by lia.
          rewrite Z.mod_add by lia. f_equal.
      + rewrite Hm. destruct s; auto.
        destruct (foreground_only_mode p =? 0); auto. }
  intros Hr. rewrite (H (initial pid)); auto.
Qed.

Lemma mode_follows_SIGTSTP_witness :
  foreground_only_mode
    (snd (fst (run [Got_SIGTSTP; Turn os_example (Some "sleep 1 &");
                    Got_SIGTSTP; Got_SIGCHLD [] false; Got_SIGTSTP]
                 (initial 1234))))
  = 1.
Proof.
  apply (mode_follows_SIGTSTP
           [Got_SIGTSTP; Turn os_example (Some "sleep 1 &");
            Got_SIGTSTP; Got_SIGCHLD [] false; Got_SIGTSTP] 1234).
  reflexivity.
Defined.

Lemma no_child_call_app (t1 t2 : list event) :
  existsb is_child_call (t1 ++ t2)
  = (existsb is_child_call t1 || existsb is_child_call t2)%bool.
Proof. apply existsb_app. Qed.

Lemma handleCommand_in_shell (os : os_replies) (input : string)
    (p : process) :
  fork_ret os <> 0 ->
  existsb is_child_call (snd (handleCommand os input p)) = false
  /\ on_SIGINT (snd (fst (handleCommand os input p))) = on_SIGINT p
  /\ on_SIGTSTP (snd (fst (handleCommand os input p))) = on_SIGTSTP p
  /\ on_SIGCHLD (snd (fst (handleCommand os input p))) = on_SIGCHLD p.
Proof.
  intros Hfork.
  rewrite handleCommand_unfold.
  destruct (parseInput _ _ input locals) as [st| | | |]; try (now repeat split).
  unfold dispatch.
  destruct (nth_error (args st) 0) as [[| |verb]|]; try (now repeat split).
  destruct (streq verb "exit"); [now repeat split|].
  destruct (streq verb "cd").
  { unfold handleCd.
    destruct (nth_error (args st) 1) as [[| |d]|]; try (now repeat split).
    cbv [bind emit perror ret].
    destruct (negb (chdir_ret os =? 0)); now repeat split. }
  destruct (streq verb "status"); [now repeat split|].
  cbv [executeCommand foreground_wait bind emit get put perror exit printf
         fflush undefined].
  apply Z.eqb_neq in Hfork. rewrite Hfork.
  destruct (fork_ret os =? -1); [now repeat split|].
  destruct (negb (background st =? 0) && (foreground_only_mode p =? 0));
    [now repeat split|].
  destruct (written_status os) as [status|]; [|now repeat split].
  destruct (WIFSIGNALED status); now repeat split.
Qed.

(** X17: redirection and signal dispositions are the child's business: in
    the process where [fork] does not return 0, no command line makes the
    shell call [signal], [open], [dup2], [close] or [execvp], and its
    three dispositions stay as they are. *)
Theorem shell_makes_no_child_call :
  forall os input p,
    fork_ret os <> 0 ->
    existsb is_child_call (snd (handleCommand os input p)) = false
    /\ on_SIGINT (snd (fst (handleCommand os input p))) = on_SIGINT p
    /\ on_SIGTSTP (snd (fst (handleCommand os input p))) = on_SIGTSTP p
    /\ on_SIGCHLD (snd (fst (handleCommand os input p))) = on_SIGCHLD p.
Proof.
  intros os input p Hfork. now apply handleCommand_in_shell.
Qed.

Lemma shell_makes_no_child_call_witness :
  existsb is_child_call
    (snd (handleCommand os_example "sort < in.txt > out.txt" (initial 1234)))
  = false
  /\ on_SIGINT (snd (fst (handleCommand os_example "sort < in.txt > out.txt"
                            (initial 1234)))) = SIG_IGN
  /\ on_SIGTSTP (snd (fst (handleCommand os_example "sort < in.txt > out.txt"
                             (initial 1234)))) = Handler Handle_sigtstp
  /\ on_SIGCHLD (snd (fst (handleCommand os_example "sort < in.txt > out.txt"
                             (initial 1234)))) = Handler Handle_sigchld.
Proof.
  apply (shell_makes_no_child_call os_example "sort < in.txt > out.txt"
           (initial 1234)).
  discriminate.
Defined.

Lemma react_in_shell (s : stimulus) (p : process) :
  in_shell s = true ->
  existsb is_child_call (snd (react s p)) = false
  /\ on_SIGINT (snd (fst (react s p))) = on_SIGINT p
  /\ on_SIGTSTP (snd (fst (react s p))) = on_SIGTSTP p
  /\ on_SIGCHLD (snd (fst (react s p))) = on_SIGCHLD p.
Proof.
  destruct s as [os line| |pending more]; cbn [react in_shell]; intros Hs.
  - destruct line as [raw|]; [|now repeat split].
    rewrite main_turn_unfold. destruct (skipped _); [now repeat split|].
    apply negb_true_iff, Z.eqb_neq in Hs.
    pose proof (handleCommand_in_shell os (chop_newline raw) p Hs) as H.
    destruct (handleCommand os (chop_newline raw) p) as [[r q] t]. exact H.
  - rewrite handle_sigtstp_run. now repeat split.
  - rewrite handle_sigchld_run. cbn [fst snd]. repeat split.
    rewrite no_child_call_app. apply orb_false_iff. split; [|reflexivity].
    induction pending as [|[c st] rest IH]; [reflexivity|exact IH].
Qed.

(** X18: however long the shell runs, it keeps the dispositions [main]
    installed -- SIGINT ignored, its own handlers for SIGTSTP and SIGCHLD --
    and never redirects its own descriptors: along any sequence of turns
    and signals followed in the shell itself, the three dispositions are
    those of the start and none of the child's calls is made. *)
Theorem shell_keeps_dispositions :
  forall l pid,
    forallb in_shell l = true ->
    on_SIGINT (snd (fst (run l (initial pid)))) = SIG_IGN
    /\ on_SIGTSTP (snd (fst (run l (initial pid)))) = Handler Handle_sigtstp
    /\ on_SIGCHLD (snd (fst (run l (initial pid)))) = Handler Handle_sigchld
    /\ existsb is_child_call (snd (run l (initial pid))) = false.
Proof.
  intros l pid Hl.
  assert (H : forall p,
             on_SIGINT (snd (fst (run l p))) = on_SIGINT p
             /\ on_SIGTSTP (snd (fst (run l p))) = on_SIGTSTP p
             /\ on_SIGCHLD (snd (fst (run l p))) = on_SIGCHLD p
             /\ existsb is_child_call (snd (run l p)) = false).
  { induction l as [|s l IH]; intros p; [now repeat split|].
    cbn [forallb] in Hl. apply andb_true_iff in Hl as [Hs Hl].
    rewrite run_cons.
    destruct (react_in_shell s p Hs) as (Ht & H1 & H2 & H3).
    destruct (react s p) as [[[[]| | | |] p1] t1]; cbn [fst snd] in *;
      try (now repeat split).
    destruct (IH Hl p1) as (H1' & H2' & H3' & Ht').
    destruct (run l p1) as [[r p2] t2]. cbn [fst snd] in *.
    rewrite no_child_call_app, Ht, Ht'. repeat split; congruence. }
  destruct (H (initial pid)) as (H1 & H2 & H3 & Ht). now repeat split.
Qed.

Lemma shell_keeps_dispositions_witness :
  on_SIGINT
    (snd (fst (run [Turn os_example (Some "ls > out"); Got_SIGTSTP;
                    Turn os_example (Some "cat < out &")]
                 (initial 1234)))) = SIG_IGN
  /\ on_SIGTSTP
       (snd (fst (run [Turn os_example (Some "ls > out"); Got_SIGTSTP;
                       Turn os_example (Some "cat < out &")]
                    (initial 1234)))) = Handler Handle_sigtstp
  /\ on_SIGCHLD
       (snd (fst (run [Turn os_example (Some "ls > out"); Got_SIGTSTP;
                       Turn os_example (Some "cat < out &")]
                    (initial 1234)))) = Handler Handle_sigchld
  /\ existsb is_child_call
       (snd (run [Turn os_example (Some "ls > out"); Got_SIGTSTP;
                  Turn os_example (Some "cat < out &")]
               (initial 1234))) = false.
Proof.
  apply (shell_keeps_dispositions
           [Turn os_example (Some "ls > out"); Got_SIGTSTP;
            Turn os_example (Some "cat < out &")] 1234).
  reflexivity.
Defined.

End ShellExtras.
